(** * xc-mcp documentation scripts: extractor and injector

    A shallow embedding of [scripts/extract-tool-docs.py] and
    [scripts/add-jsdoc.py], and the properties of their behaviour.

    Python [str] values are sequences of Unicode code points, so texts are
    modelled as lists of code points ([N]); slicing such as [content[:500]]
    counts code points and is [take 500].  The scripts reach the file system
    through six library calls; these are the operations of an interface,
    [FileSystem], of which nothing is assumed, and the scripts are defined
    and their properties proved over every file system.  One file system,
    a tree of directories and text files with the path resolution of POSIX,
    is given for the examples.  Statements that print, open files or may
    raise run in a small state-and-exception monad that also records the
    trace of effects. *)

From Stdlib Require Import NArith Ascii String List Lia DecimalString.
From stdpp Require Import base option list gmap.

Open Scope N_scope.
Open Scope nat_scope.
Open Scope list_scope.

(** ** Texts *)

Abbreviation char := N (only parsing).
Abbreviation str := (list N) (only parsing).

(** An ASCII literal of the source as a text. *)
Definition lit (s : string) : str := map N_of_ascii (list_ascii_of_string s).
Arguments lit : simpl never.

Module Ch.
Definition nl : char := 10%N.
Definition dash : char := 45%N.
Definition squote : char := 39%N.
Definition dquote : char := 34%N.
Definition backtick : char := 96%N.
Definition backslash : char := 92%N.
Definition hash : char := 35%N.
Definition bullet : char := 8226%N.          (* U+2022 *)
Definition cross : char := 10060%N.          (* U+274C *)
Definition check : char := 9989%N.           (* U+2705 *)
Definition next_track : char := 9197%N.      (* U+23ED *)
Definition warning : char := 9888%N.         (* U+26A0 *)
Definition vs16 : char := 65039%N.           (* U+FE0F *)
Definition sparkles : char := 10024%N.       (* U+2728 *)
Definition books : char := 128218%N.         (* U+1F4DA *)
Definition page : char := 128196%N.          (* U+1F4C4 *)
Definition folder : char := 128193%N.        (* U+1F4C1 *)
Definition chart : char := 128202%N.         (* U+1F4CA *)
Definition open_folder : char := 128194%N.   (* U+1F4C2 *)
End Ch.

(** [str.isspace] on one character, which is also what [\s] matches in a
    [str] pattern: the Unicode white space characters. *)
Definition isspace (c : char) : bool :=
  ((9 <=? c) && (c <=? 13) || (28 <=? c) && (c <=? 32)
   || (c =? 133) || (c =? 160) || (c =? 5760)
   || (8192 <=? c) && (c <=? 8202)
   || (c =? 8232) || (c =? 8233) || (c =? 8239) || (c =? 8287)
   || (c =? 12288))%N.

(** [s.startswith(p)] *)
Fixpoint startswith (p s : str) : bool :=
  match p, s with
  | [], _ => true
  | a :: p', b :: s' => (a =? b)%N && startswith p' s'
  | _ :: _, [] => false
  end.

(** [p in s] for texts. *)
Fixpoint contains (p s : str) : bool :=
  startswith p s ||
  match s with
  | [] => false
  | _ :: s' => contains p s'
  end.

Fixpoint lstrip (s : str) : str :=
  match s with
  | c :: s' => if isspace c then lstrip s' else s
  | [] => []
  end.

Definition rstrip (s : str) : str := rev (lstrip (rev s)).

(** [s.strip()] *)
Definition strip (s : str) : str := rstrip (lstrip s).

(** [s.split(sep)] for a one-character separator: never empty. *)
Fixpoint split (sep : char) (s : str) : list str :=
  match s with
  | [] => [[]]
  | c :: s' =>
      if (c =? sep)%N then [] :: split sep s'
      else match split sep s' with
           | w :: ws => (c :: w) :: ws
           | [] => [[c]]
           end
  end.

(** [s.split(sep, 1)]: at most one cut, at the first separator. *)
Fixpoint split1 (sep : char) (s : str) : list str :=
  match s with
  | [] => [[]]
  | c :: s' =>
      if (c =? sep)%N then [[]; s']
      else match split1 sep s' with
           | w :: ws => (c :: w) :: ws
           | [] => [[c]]
           end
  end.

(** [sep.join(parts)] *)
Fixpoint join (sep : str) (parts : list str) : str :=
  match parts with
  | [] => []
  | [p] => p
  | p :: ps => p ++ sep ++ join sep ps
  end.

(** [s.replace(old, new)] for a non-empty [old]: occurrences are replaced
    from the left and do not overlap; [skip] counts the characters of the
    occurrence just replaced that are still to be passed over. *)
Fixpoint replace_from (old new : str) (skip : nat) (s : str) : str :=
  match s with
  | [] => []
  | c :: s' =>
      match skip with
      | S k => replace_from old new k s'
      | O => if startswith old s
             then new ++ replace_from old new (length old - 1) s'
             else c :: replace_from old new 0 s'
      end
  end.

Definition replace (old new s : str) : str := replace_from old new 0 s.

(** ** Pattern matching

    The scripts use a handful of fixed regular expressions.  Each is
    transcribed with the combinators below, which implement the backtracking
    search of Python's [re] in continuation style: a matcher takes the
    continuation [k] for the rest of the pattern and the text still to be
    matched, and answers with the first success in [re]'s order of
    preference. *)

Module Re.
Section Combinators.
Context {A : Type}.

(** A literal piece of the pattern. *)
Definition text (p : str) (k : str → option A) (s : str) : option A :=
  if startswith p s then k (drop (length p) s) else None.

(** One character of a class. *)
Definition one (cls : char → bool) (k : char → str → option A) (s : str)
  : option A :=
  match s with
  | c :: s' => if cls c then k c s' else None
  | [] => None
  end.

(** [cls*], greedy: as many characters as possible first, giving them
    back one at a time while the continuation fails; [acc] is what the
    star has taken so far. *)
Fixpoint star_from (cls : char → bool) (k : str → str → option A)
    (acc s : str) : option A :=
  match s with
  | c :: s' =>
      if cls c then
        match star_from cls k (acc ++ [c]) s' with
        | Some r => Some r
        | None => k acc s
        end
      else k acc s
  | [] => k acc s
  end.

Definition star (cls : char → bool) (k : str → str → option A) : str → option A :=
  star_from cls k [].

(** [cls+], greedy. *)
Definition plus (cls : char → bool) (k : str → str → option A) : str → option A :=
  one cls (λ c, star_from cls k [c]).

(** [cls*?], lazy: as few characters as possible first. *)
Fixpoint lazy_from (cls : char → bool) (k : str → str → option A)
    (acc s : str) : option A :=
  match k acc s with
  | Some r => Some r
  | None =>
      match s with
      | c :: s' => if cls c then lazy_from cls k (acc ++ [c]) s' else None
      | [] => None
      end
  end.

Definition lazy_star (cls : char → bool) (k : str → str → option A) : str → option A :=
  lazy_from cls k [].

(** [cls+?], lazy. *)
Definition lazy_plus (cls : char → bool) (k : str → str → option A) : str → option A :=
  one cls (λ c, lazy_from cls k [c]).

(** [(?:g)?], greedy: with the group first, without it if that fails. *)
Definition opt (g : (str → option A) → str → option A) (k : str → option A)
    (s : str) : option A :=
  match g k s with
  | Some r => Some r
  | None => k s
  end.

(** [g1|g2]: the left alternative first. *)
Definition alt (g1 g2 : str → option A) (s : str) : option A :=
  match g1 s with
  | Some r => Some r
  | None => g2 s
  end.
End Combinators.

(** [re.finditer] for a pattern whose matches are never empty: matches are
    sought from the left and do not overlap.  [m] matches the pattern at the
    start of its argument and returns the groups with the text left after
    the match; [skip] counts the characters of the last match still to be
    passed over. *)
Fixpoint finditer {A : Type} (m : str → option (A * str)) (skip : nat) (s : str)
    : list A :=
  match s with
  | [] => []
  | _ :: s' =>
      match skip with
      | S n => finditer m n s'
      | O =>
          match m s with
          | Some (a, rest) => a :: finditer m (length s - length rest - 1) s'
          | None => finditer m 0 s'
          end
      end
  end.

(** [re.search]: the leftmost match.  [bol] tells whether the current
    position is at the start of a line, for patterns that use [^] under
    [re.MULTILINE]; [pos] is the offset of the current position. *)
Fixpoint search_from {A : Type} (m : bool → str → option A) (bol : bool)
    (pos : nat) (s : str) : option (nat * A) :=
  match m bol s with
  | Some a => Some (pos, a)
  | None =>
      match s with
      | [] => None
      | c :: s' => search_from m (c =? 10)%N (S pos) s'
      end
  end.

Definition search {A : Type} (m : bool → str → option A) (s : str) : option (nat * A) :=
  search_from m true 0 s.

(** Character classes of the patterns. *)
Definition any (c : char) : bool := true.
Definition not_nl (c : char) : bool := negb (c =? 10)%N.
Definition quote (c : char) : bool := (c =? 39)%N || (c =? 34)%N.
Definition tick_or_quote (c : char) : bool := (c =? 96)%N || (c =? 34)%N.
(** [$]: at the end of the text or just before a line break that ends it;
    under [re.MULTILINE], at the end of the text or before any line break. *)
Definition dollar {A : Type} (k : str → option A) (s : str) : option A :=
  match s with
  | [] => k s
  | [c] => if (c =? 10)%N then k s else None
  | _ => None
  end.

Definition dollar_multiline {A : Type} (k : str → option A) (s : str) : option A :=
  match s with
  | [] => k s
  | c :: _ => if (c =? 10)%N then k s else None
  end.

(** [\w]: letters, digits and the underscore.  Beyond ASCII, which
    characters are alphanumeric is a table of the Unicode database, taken
    as the parameter [unicode_alnum]. *)
Definition word (unicode_alnum : char → bool) (c : char) : bool :=
  ((48 <=? c) && (c <=? 57) || (65 <=? c) && (c <=? 90)
   || (97 <=? c) && (c <=? 122) || (c =? 95)
   || (128 <=? c) && unicode_alnum c)%N.
End Re.

(** ** Exceptions, effects and the file system *)

(** The exceptions that occur.  The first four are raised by the scripts'
    own statements, with the message or the key they are made from; the
    others are the [OSError] classes a file operation raises, with the text
    [str(e)] gives. *)
Inductive exn :=
| TypeError (msg : str)
| IndexError (msg : str)
| KeyError (msg : str)
| ValueError (msg : str)
| FileNotFoundError (msg : str)
| FileExistsError (msg : str)
| IsADirectoryError (msg : str)
| NotADirectoryError (msg : str)
| PermissionError (msg : str)
| OSError (msg : str).

Inductive result (A : Type) :=
| Ok (a : A)
| Raise (e : exn).
Arguments Ok {A} a.
Arguments Raise {A} e.

(** [str(e)], for the exceptions the handlers of the scripts can meet, those
    of a file operation. *)
Definition exn_message (e : exn) : str :=
  match e with
  | TypeError msg | IndexError msg | KeyError msg | ValueError msg
  | FileNotFoundError msg | FileExistsError msg | IsADirectoryError msg
  | NotADirectoryError msg | PermissionError msg | OSError msg => msg
  end.

(** The library calls through which the scripts reach the file system, as
    operations on a state [T] of the file system.  What an operation
    answers, and what it raises, is the file system's business: a path may be
    missing, a directory, unreadable or not decodable, and a write or the
    making of a directory may fail, for whatever reason.

    - [fs_exists]: [os.path.exists(path)], which never raises;
    - [fs_path_exists]: [Path(path).exists()], which raises on some errors;
    - [fs_read]: [open(path, 'r')] followed by [read()], the text or the
      exception;
    - [fs_write]: [open(path, 'w')] followed by [write(content)];
    - [fs_makedirs]: [os.makedirs(path, exist_ok=True)];
    - [fs_listdir]: the names of the entries of the directory [path] that
      [Path(path).glob] goes through: none when it is no directory, and an
      exception when looking at the directory raises. *)
Class FileSystem (T : Type) := {
  fs_exists : T → str → bool;
  fs_path_exists : T → str → result bool;
  fs_read : T → str → result str;
  fs_write : T → str → str → result unit * T;
  fs_makedirs : T → str → result unit * T;
  fs_listdir : T → str → result (list str)
}.

(** What a run does to the outside, in order: a [print] call with the text
    it is given, a file opened for reading or for writing, a directory
    made.  The event stands for the call, whether it succeeds or raises. *)
Inductive event :=
| Printed (line : str)
| OpenRead (path : str)
| OpenWrite (path : str)
| MakeDirs (path : str).

(** The world a script runs in: the state of the file system, and the trace
    of what has been done so far. *)
Record world (T : Type) := World {
  files : T;
  trace : list event
}.
Arguments World {T} files trace.
Arguments files {T} w.
Arguments trace {T} w.

(** A statement: it returns or raises, and leaves a world. *)
Definition M (T A : Type) : Type := world T → result A * world T.

Definition ret {T A} (a : A) : M T A := λ w, (Ok a, w).
Definition raise {T A} (e : exn) : M T A := λ w, (Raise e, w).
Definition bind {T A B} (m : M T A) (k : A → M T B) : M T B :=
  λ w, match m w with
       | (Ok a, w') => k a w'
       | (Raise e, w') => (Raise e, w')
       end.

Declare Scope py_scope.
Delimit Scope py_scope with py.
Notation "x ← y ; z" := (bind y (λ x, z))
  (at level 20, y at level 100, z at level 200, only parsing) : py_scope.
Notation "y ;; z" := (bind y (λ _, z))
  (at level 100, z at level 200, only parsing, right associativity) : py_scope.
Open Scope py_scope.

(** [try: body except Exception as e: handler(e)] *)
Definition try_except {T A} (body : M T A) (handler : exn → M T A) : M T A :=
  λ w, match body w with
       | (Ok a, w') => (Ok a, w')
       | (Raise e, w') => handler e w'
       end.

(** A pure computation that may raise. *)
Definition lift {T A} (r : result A) : M T A := λ w, (r, w).

Definition emit {T} (e : event) : M T unit :=
  λ w, (Ok tt, World (files w) (trace w ++ [e])).

(** [print(line)] *)
Definition print {T} (line : str) : M T unit := emit (Printed line).

Section FileOperations.
Context {T : Type} `{FileSystem T}.

(** [os.path.exists(path)] *)
Definition path_exists (path : str) : M T bool :=
  λ w, (Ok (fs_exists (files w) path), w).

(** [with open(path, 'r') as f: content = f.read()] *)
Definition load (path : str) : M T (list N) :=
  λ w, (fs_read (files w) path, w).

Definition read_file (path : str) : M T (list N) :=
  emit (OpenRead path);; load path.

(** [with open(path, 'w') as f: f.write(content)] *)
Definition store (path content : str) : M T unit :=
  λ w, ((fs_write (files w) path content).1,
        World (fs_write (files w) path content).2 (trace w)).

Definition write_file (path content : str) : M T unit :=
  emit (OpenWrite path);; store path content.

(** [os.makedirs(path, exist_ok=True)] *)
Definition makedirs (path : str) : M T unit :=
  emit (MakeDirs path);;
  (λ w, ((fs_makedirs (files w) path).1,
         World (fs_makedirs (files w) path).2 (trace w))).
End FileOperations.

(** Running a script whose last statement is the call [main()]: the exit
    status is 0 when [main] returns and 1 when an exception leaves it. *)
Definition run_script {T} (main : M T unit) (fs : T) : world T * nat :=
  match main (World fs []) with
  | (Ok _, w) => (w, 0)
  | (Raise _, w) => (w, 1)
  end.

(** [str(n)] for a natural number. *)
Definition str_of_nat (n : nat) : str :=
  lit (NilEmpty.string_of_uint (Nat.to_uint n)).

(** Texts compared as Python compares them, code point by code point. *)
Fixpoint str_leb (a b : str) : bool :=
  match a, b with
  | [], _ => true
  | _ :: _, [] => false
  | x :: a', y :: b' => (x <? y)%N || ((x =? y)%N && str_leb a' b')
  end.

Fixpoint insert_sorted (x : str) (l : list str) : list str :=
  match l with
  | [] => [x]
  | y :: l' => if str_leb x y then x :: l else y :: insert_sorted x l'
  end.

(** [sorted(l)] for a list of texts. *)
Definition sorted (l : list str) : list str := foldr insert_sorted [] l.

(** ** Extractor: [scripts/extract-tool-docs.py] *)

Module Extract.

(** The [categories] dictionary of [get_tool_category], in insertion order. *)
Definition categories : list (str * list str) :=
  [ (lit "xcodebuild", [lit "xcodebuild"]);
    (lit "simctl", [lit "simctl"]);
    (lit "idb", [lit "idb"]);
    (lit "cache", [lit "cache"]);
    (lit "persistence", [lit "persistence"]) ].

(** The inner loop: [for prefix in prefixes: if parts[0] == prefix]. *)
Fixpoint prefixes_loop (part0 : str) (prefixes : list str) : bool :=
  match prefixes with
  | [] => false
  | prefix :: rest =>
      if bool_decide (part0 = prefix) then true else prefixes_loop part0 rest
  end.

(** The outer loop over [categories.items()], returning at the first hit. *)
Fixpoint categories_loop (part0 : str) (items : list (str * list str)) : option str :=
  match items with
  | [] => None
  | (category, prefixes) :: rest =>
      if prefixes_loop part0 prefixes then Some category
      else categories_loop part0 rest
  end.

(** [get_tool_category]: [parts[0]] is an indexing that raises on an empty
    list. *)
Definition get_tool_category (tool_name : str) : result str :=
  let parts := split Ch.dash tool_name in
  match parts !! 0 with
  | None => Raise (IndexError (lit "list index out of range"))
  | Some part0 =>
      match categories_loop part0 categories with
      | Some category => Ok category
      | None => Ok (lit "unknown")
      end
  end.

(** [get_tool_filename] *)
Definition get_tool_filename (tool_name : str) : str :=
  let parts := split1 Ch.dash tool_name in
  if bool_decide (length parts = 2) then
    match parts !! 1 with
    | Some p => p
    | None => tool_name
    end
  else tool_name.

(** The pattern of [parse_index_ts], matched at the start of a text.  In
    the order of the pattern: the literal [this.server.registerTool(]; white
    space; a single or double quote; group 1, one or more characters other
    than those two quotes (greedy); a single or double quote; a comma; white
    space; an opening brace; white space; the literal [description:]; white
    space; a backtick or double quote; group 2, any number of characters
    other than backtick and double quote (greedy), followed by an optional
    group of the same; a backtick or double quote.  A negated class also
    matches line breaks, so the flags of the search change nothing.  The
    answer is (group 1, group 2) and the text after the match. *)
Definition registration_close (group1 group2 : str)
    : str → option ((str * str) * str) :=
  Re.one Re.tick_or_quote (λ _ rest, Some ((group1, group2), rest)).

Definition registration : str → option ((str * str) * str) :=
  Re.text (lit "this.server.registerTool(")
   (Re.star isspace (λ _,
    Re.one Re.quote (λ _,
    Re.plus (λ c, negb (Re.quote c)) (λ group1,
    Re.one Re.quote (λ _,
    Re.text (lit ",")
   (Re.star isspace (λ _,
    Re.text (lit "{")
   (Re.star isspace (λ _,
    Re.text (lit "description:")
   (Re.star isspace (λ _,
    Re.one Re.tick_or_quote (λ _,
    Re.star (λ c, negb (Re.tick_or_quote c)) (λ g2a,
    Re.alt
      (Re.star (λ c, negb (Re.tick_or_quote c)) (λ g2b,
         registration_close group1 (g2a ++ g2b)))
      (registration_close group1 g2a)))))))))))))).

(** The body of [parse_index_ts] once the file is read: one pair per match,
    the description stripped and then its two-character sequences
    backslash-n turned into line breaks. *)
Definition clean_description (group2 : str) : str :=
  replace [Ch.backslash; 110%N] [Ch.nl] (strip group2).

Definition parse_tools (content : str) : list (str * str) :=
  map (λ m : str * str, (m.1, clean_description m.2))
      (Re.finditer registration 0 content).

(** The state of the scanning loop of [format_markdown]. *)
Record scan := Scan {
  advantages : list str;
  summary_lines : list str;
  in_advantages : bool
}.

Definition is_bullet (stripped : str) : bool :=
  startswith [Ch.bullet] stripped || startswith (lit "-") stripped.

(** One iteration of [for line in lines]. *)
Definition scan_line (st : scan) (line : str) : scan :=
  let stripped := strip line in
  if contains (lit "Advantages") line || contains (lit "Benefits") line
     || contains (lit "Features") line
  then Scan (advantages st) (summary_lines st) true
  else if in_advantages st then
    if is_bullet stripped
    then Scan (advantages st ++ [stripped]) (summary_lines st) true
    else if startswith (lit "###") stripped || startswith (lit "##") stripped
    then Scan (advantages st) (summary_lines st ++ [line]) false
    else if bool_decide (stripped = [])
    then st
    else Scan (advantages st) (summary_lines st ++ [line]) false
  else Scan (advantages st) (summary_lines st ++ [line]) (in_advantages st).

Definition scan_description (description : str) : scan :=
  fold_left scan_line (split Ch.nl description) (Scan [] [] false).

(** [if line.strip():] *)
Definition nonblank (line : str) : bool := negb (bool_decide (strip line = [])).

(** The body of [for line in summary_lines[:5]]. *)
Definition add_summary_line (md line : str) : str :=
  if nonblank line then md ++ line ++ [Ch.nl] else md.

(** The body of [for adv in advantages[:5]]. *)
Definition add_advantage (md adv : str) : str := md ++ adv ++ [Ch.nl].

(** The closing f-string of [format_markdown]. *)
Definition scaffold (tool_name : str) : str :=
  lit "
## Parameters

### Required
- (See implementation for parameters)

### Optional
- (See implementation for optional parameters)

## Returns

- Tool execution results with structured output
- Success/failure status
- Guidance for next steps

## Related Tools

- See MCP server documentation for related tools

## Notes

- Tool is auto-registered with MCP server
- Full documentation in " ++ replace (lit "-") (lit "_") tool_name ++ lit ".ts
".

(** [format_markdown] *)
Definition format_markdown (tool_name description : str) : str :=
  let st := scan_description description in
  let md := lit "# " ++ tool_name ++ [Ch.nl; Ch.nl] in
  let md := fold_left add_summary_line (take 5 (summary_lines st)) md in
  let md :=
    match advantages st with
    | [] => md
    | _ :: _ =>
        fold_left add_advantage (take 5 (advantages st))
          (md ++ [Ch.nl] ++ lit "## Advantages" ++ [Ch.nl; Ch.nl])
    end in
  md ++ scaffold tool_name.

(** The grouping loop of [main]: [by_category] is a dictionary, kept in
    insertion order, from a category to the tools filed under it. *)
Fixpoint by_category_append (by_category : list (str * list (str * str)))
    (category : str) (tool : str * str) : list (str * list (str * str)) :=
  match by_category with
  | [] => [(category, [tool])]
  | (c, tools) :: rest =>
      if bool_decide (c = category) then (c, tools ++ [tool]) :: rest
      else (c, tools) :: by_category_append rest category tool
  end.

Fixpoint group_loop (tools : list (str * str))
    (by_category : list (str * list (str * str)))
    : result (list (str * list (str * str))) :=
  match tools with
  | [] => Ok by_category
  | (tool_name, description) :: rest =>
      match get_tool_category tool_name with
      | Raise e => Raise e
      | Ok category =>
          group_loop rest (by_category_append by_category category (tool_name, description))
      end
  end.

(** [by_category[category]] *)
Fixpoint by_category_get (by_category : list (str * list (str * str)))
    (category : str) : result (list (str * str)) :=
  match by_category with
  | [] => Raise (KeyError category)
  | (c, tools) :: rest =>
      if bool_decide (c = category) then Ok tools else by_category_get rest category
  end.

Definition index_path : str := lit "src/index.ts".

(** [f'src/tools/{category}'] and [f'{category_dir}/{tool_filename}.md'] *)
Definition category_dir (category : str) : str := lit "src/tools/" ++ category.
Definition md_path (category_dir tool_filename : str) : str :=
  category_dir ++ lit "/" ++ tool_filename ++ lit ".md".

(** [f"   ⏭️  {tool_filename}.md (already exists)"] *)
Definition already_exists_line (tool_filename : str) : str :=
  lit "   " ++ [Ch.next_track; Ch.vs16] ++ lit "  " ++ tool_filename
  ++ lit ".md (already exists)".

Section Run.
Context {T : Type} `{FileSystem T}.

(** The inner loop of [main], over the tools of one category. *)
Fixpoint tools_loop (category_dir : str) (category_tools : list (str * str))
    (generated_count : nat) : M T nat :=
  match category_tools with
  | [] => ret generated_count
  | (tool_name, description) :: rest =>
      let tool_filename := get_tool_filename tool_name in
      let md_path := md_path category_dir tool_filename in
      present ← path_exists md_path;
      if present then
        print (already_exists_line tool_filename);;
        tools_loop category_dir rest generated_count
      else
        let markdown := format_markdown tool_name description in
        makedirs category_dir;;
        write_file md_path markdown;;
        print (lit "   " ++ [Ch.check] ++ lit " " ++ tool_filename ++ lit ".md");;
        tools_loop category_dir rest (generated_count + 1)
  end.

(** The outer loop of [main], over the sorted categories. *)
Fixpoint categories_walk (by_category : list (str * list (str * str)))
    (keys : list str) (generated_count : nat) : M T nat :=
  match keys with
  | [] => ret generated_count
  | category :: rest =>
      category_tools ← lift (by_category_get by_category category);
      let category_dir := category_dir category in
      print ([Ch.folder] ++ lit " " ++ category ++ lit "/ ("
             ++ str_of_nat (length category_tools) ++ lit " tools)");;
      generated_count ← tools_loop category_dir category_tools generated_count;
      categories_walk by_category rest generated_count
  end.

(** [parse_index_ts] *)
Definition parse_index_ts (file_path : str) : M T (list (str * str)) :=
  content ← read_file file_path;
  ret (parse_tools content).

(** [main] *)
Definition main : M T unit :=
  print ([Ch.page] ++ lit " Extracting tool documentation from index.ts...");;
  present ← path_exists index_path;
  if negb present then
    print ([Ch.cross] ++ lit " Could not find " ++ index_path)
  else
    tools ← parse_index_ts index_path;
    print ([Ch.check] ++ lit " Found " ++ str_of_nat (length tools) ++ lit " tools"
           ++ [Ch.nl]);;
    by_category ← lift (group_loop tools []);
    let keys := sorted (map fst by_category) in
    generated_count ← categories_walk by_category keys 0;
    print ([Ch.nl; Ch.sparkles] ++ lit " Generated " ++ str_of_nat generated_count
           ++ lit " documentation files");;
    print ([Ch.chart] ++ lit " Total tools: " ++ str_of_nat (length tools));;
    print ([Ch.open_folder] ++ lit " Categories: " ++ join (lit ", ") keys).
End Run.

End Extract.

(** ** Injector: [scripts/add-jsdoc.py] *)

(** Paths are kept as texts.  The paths the injector handles are a category
    directory followed by a slash and a file name, and the [pathlib]
    operations are modelled on such paths. *)
Module Path.
Definition slash : char := 47%N.
Definition dot : char := 46%N.

(** The text after the last slash, and the text before it. *)
Fixpoint name (p : str) : str :=
  match p with
  | [] => []
  | c :: p' => if bool_decide (slash ∈ p') then name p'
               else if (c =? slash)%N then p' else p
  end.

Fixpoint parent (p : str) : str :=
  match p with
  | [] => []
  | c :: p' => if bool_decide (slash ∈ p') then c :: parent p'
               else if (c =? slash)%N then [] else lit "."
  end.

(** [PurePath.suffix] of a file name: from its last dot, when that dot is
    neither the first nor the last character. *)
Fixpoint last_dot (n : str) : option nat :=
  match n with
  | [] => None
  | c :: n' =>
      match last_dot n' with
      | Some i => Some (S i)
      | None => if (c =? dot)%N then Some 0 else None
      end
  end.

Definition suffix (n : str) : str :=
  match last_dot n with
  | Some i => if bool_decide (0 < i ∧ i < length n - 1) then drop i n else []
  | None => []
  end.

(** [PurePath.stem] and [with_suffix] on a file name. *)
Definition stem (n : str) : str := take (length n - length (suffix n)) n.
Definition with_suffix (n suf : str) : str := stem n ++ suf.

(** [parent / name] *)
Definition child (dir n : str) : str := dir ++ [slash] ++ n.

(** [Path(p).relative_to(Path(dir))] for a path directly written under
    [dir]. *)
Definition relative_to (p dir : str) : result (list N) :=
  if startswith (dir ++ [slash]) p then Ok (drop (length dir + 1) p)
  else Raise (ValueError (lit "'" ++ p ++ lit "' is not in the subpath of '"
                          ++ dir ++ lit "'")).

Definition endswith (suf s : str) : bool := startswith (rev suf) (rev s).

(** [sorted(Path(dir).glob('*.ts'))], by file name: the entries of the
    directory whose name ends in [.ts], files and directories alike, in the
    order of their names.  No entry has a slash in its name. *)
Definition glob_ts {T : Type} `{FileSystem T} (fs : T) (dir : str)
    : result (list (list N)) :=
  match fs_listdir fs dir with
  | Ok names =>
      Ok (sorted
            (List.filter
               (λ n, negb (bool_decide (slash ∈ n)) && endswith (lit ".ts") n)
               names))
  | Raise e => Raise e
  end.
End Path.

Module Inject.

(** [JSDOC_TEMPLATE.format(...)] *)
Definition jsdoc_template (tool_title what_it_does why_use parameters returns
    example md_file : str) : str :=
  lit "/**
 * " ++ tool_title ++ lit "
 *
 * **What it does:**
 * " ++ what_it_does ++ lit "
 *
 * **Why you'd use it:**
 * " ++ why_use ++ lit "
 *
 * **Parameters:**
 * " ++ parameters ++ lit "
 *
 * **Returns:**
 * " ++ returns ++ lit "
 *
 * **Example:**
 * ```typescript
 * " ++ example ++ lit "
 * ```
 *
 * **Full documentation:** See " ++ md_file ++ lit " for detailed parameters and examples
 *
 * @param args Tool arguments
 * @returns Tool result with status and guidance
 */".

(** The four patterns of [load_md_content], each matched at one position;
    [bol] says whether that position starts a line.

    Title: at a line start, a hash, white space (one or more, greedy), then
    group 1, one or more characters other than a line break (greedy), up to
    a line end. *)
Definition title_pattern (bol : bool) (s : str) : option (list N) :=
  if bol then
    Re.text [Ch.hash]
      (Re.plus isspace (λ _,
       Re.plus Re.not_nl (λ group1,
       Re.dollar_multiline (λ _, Some group1)))) s
  else None.

(** First paragraph: at a line start, a hash, any characters (lazy), an
    empty line, then group 1, one or more of any characters (lazy), up to an
    empty line or two hashes. *)
Definition para_pattern (bol : bool) (s : str) : option (list N) :=
  if bol then
    Re.text [Ch.hash]
      (Re.lazy_star Re.any (λ _,
       Re.text [Ch.nl; Ch.nl]
      (Re.lazy_plus Re.any (λ group1,
       Re.alt (Re.text [Ch.nl; Ch.nl] (λ _, Some group1))
              (Re.text [Ch.hash; Ch.hash] (λ _, Some group1)))))) s
  else None.

(** A section: its heading text, any characters (lazy), an empty line, then
    group 1, one or more of any characters (lazy), up to an empty line
    followed by two hashes, or to the end of the text. *)
Definition section_pattern (heading : str) (bol : bool) : str → option (list N) :=
  Re.text heading
    (Re.lazy_star Re.any (λ _,
     Re.text [Ch.nl; Ch.nl]
    (Re.lazy_plus Re.any (λ group1,
     Re.alt (Re.text [Ch.nl; Ch.nl; Ch.hash; Ch.hash] (λ _, Some group1))
            (Re.dollar (λ _, Some group1)))))).

Definition is_bullet (line : str) : bool :=
  startswith [Ch.bullet] line || startswith (lit "-") line.

(** The body of the loop over the lines of the advantages text. *)
Definition add_advantage (advantages : list (list N)) (line : str) : list (list N) :=
  let line := strip line in
  if is_bullet line then advantages ++ [line] else advantages.

(** The list [advantages] when the advantages block is done. *)
Definition extract_advantages (content : str) : list (list N) :=
  match Re.search (section_pattern (lit "## Advantages")) content with
  | Some (_, adv_text) =>
      take 4 (fold_left add_advantage (split Ch.nl adv_text) [])
  | None => []
  end.

(** The body of the loop over the first lines of the parameters text. *)
Definition add_param (params : list (list N)) (line : str) : list (list N) :=
  let line := strip line in
  if negb (bool_decide (line = [])) && negb (startswith [Ch.hash] line)
  then params ++ [lit "- " ++ line] else params.

Definition extract_params (content : str) : list (list N) :=
  match Re.search (section_pattern (lit "## Parameters")) content with
  | Some (_, params_text) =>
      fold_left add_param (take 4 (split Ch.nl params_text)) []
  | None => []
  end.

(** The dictionary [load_md_content] returns for a sidecar it could read. *)
Definition md_fields (content : str) : gmap (list N) (list N) :=
  let title :=
    match Re.search title_pattern content with
    | Some (_, group1) => group1
    | None => lit "Tool"
    end in
  let what_it_does :=
    match Re.search para_pattern content with
    | Some (_, group1) => strip group1
    | None => lit "No description available"
    end in
  let advantages := extract_advantages content in
  let why_use :=
    match advantages with
    | [] => lit "- Provides enhanced functionality over raw CLI commands"
    | _ :: _ => join ([Ch.nl] ++ lit " * ") advantages
    end in
  let params := extract_params content in
  let parameters :=
    match params with
    | [] => lit "- See implementation for parameters"
    | _ :: _ => join ([Ch.nl] ++ lit " * ") params
    end in
  let returns := lit "Structured result with status, metadata, and guidance" in
  let example := lit "await toolFunction(args)" in
  <[lit "title" := title]>
    (<[lit "what_it_does" := what_it_does]>
      (<[lit "why_use" := why_use]>
        (<[lit "parameters" := parameters]>
          (<[lit "returns" := returns]>
            (<[lit "example" := example]> ∅))))).

(** [load_md_content]: the empty dictionary when opening the sidecar raises
    [FileNotFoundError]; any other exception of the read leaves the
    function. *)
Definition load_md_content {T : Type} `{FileSystem T} (md_path : str)
    : M T (gmap (list N) (list N)) :=
  λ w, match read_file md_path w with
       | (Ok content, w') => (Ok (md_fields content), w')
       | (Raise (FileNotFoundError _), w') => (Ok ∅, w')
       | (Raise e, w') => (Raise e, w')
       end.

(** [d[key]] *)
Definition getitem (d : gmap (list N) (list N)) (key : str) : result (list N) :=
  match d !! key with
  | Some v => Ok v
  | None => Raise (KeyError key)
  end.

(** [if '/**' in content[:500]] *)
Definition jsdoc_exists (content : str) : bool :=
  contains (lit "/**") (take 500 content).

(** [content[:start_pos] + jsdoc + '\n' + content[start_pos:]] *)
Definition splice (content : str) (start_pos : nat) (jsdoc : str) : str :=
  take start_pos content ++ jsdoc ++ [Ch.nl] ++ drop start_pos content.

Section WordTable.
Context {T : Type} `{FileSystem T}.
Variable unicode_alnum : N → bool.

(** The pattern of [find_function_export], matched at the start of a text:
    the word [export], white space, optionally the word [async] and white
    space, the word [function], white space, a name of word characters, an
    opening parenthesis, any characters of the line (lazy), a closing
    parenthesis, white space, optionally a colon with white space and a
    word, white space, an opening brace.  The answer is the text after the
    match. *)
Definition function_export : str → option (list N) :=
  let word := Re.word unicode_alnum in
  Re.text (lit "export")
   (Re.plus isspace (λ _,
    Re.opt (λ k, Re.text (lit "async") (Re.plus isspace (λ _, k)))
   (Re.text (lit "function")
   (Re.plus isspace (λ _,
    Re.plus word (λ _,
    Re.text (lit "(")
   (Re.lazy_star Re.not_nl (λ _,
    Re.text (lit ")")
   (Re.star isspace (λ _,
    Re.opt (λ k, Re.text (lit ":") (Re.star isspace (λ _, Re.plus word (λ _, k))))
   (Re.star isspace (λ _,
    Re.text (lit "{") (λ rest, Some rest))))))))))))).

(** [find_function_export], a function of two positional parameters: the
    start of the first match and its text, or a pair of [None]. *)
Definition find_function_export (content tool_name : str)
    : option nat * option (list N) :=
  match Re.search (λ _, function_export) content with
  | Some (start_pos, rest) =>
      (Some start_pos,
       Some (take (length content - start_pos - length rest) (drop start_pos content)))
  | None => (None, None)
  end.

(** A call of [find_function_export] with a list of positional arguments:
    Python raises [TypeError] unless there are exactly two. *)
Definition call_find_function_export (args : list (list N))
    : result (option nat * option (list N)) :=
  match args with
  | [content; tool_name] => Ok (find_function_export content tool_name)
  | [_] =>
      Raise (TypeError (lit "find_function_export() missing 1 required positional argument: 'tool_name'"))
  | [] =>
      Raise (TypeError (lit "find_function_export() missing 2 required positional arguments: 'content' and 'tool_name'"))
  | _ =>
      Raise (TypeError (lit "find_function_export() takes 2 positional arguments but "
                        ++ str_of_nat (length args) ++ lit " were given"))
  end.

(** [add_jsdoc_to_file] *)
Definition add_jsdoc_to_file (file_path md_path : str) : M T bool :=
  read ← try_except (bind (read_file file_path) (λ content, ret (Some content)))
           (λ e, print (lit "   " ++ [Ch.cross] ++ lit " Could not read " ++ file_path
                        ++ lit ": " ++ exn_message e);;
                 ret None);
  match read with
  | None => ret false
  | Some content =>
      if jsdoc_exists content then
        print (lit "   " ++ [Ch.next_track; Ch.vs16] ++ lit "  " ++ Path.name file_path
               ++ lit " (JSDoc already exists)");;
        ret false
      else
        md_info ← load_md_content md_path;
        if bool_decide (md_info = ∅) then
          print (lit "   " ++ [Ch.warning; Ch.vs16] ++ lit "  " ++ Path.name file_path
                 ++ lit " (no markdown found)");;
          ret false
        else
          found ← lift (call_find_function_export [content]);
          match found.1 with
          | None =>
              print (lit "   " ++ [Ch.warning; Ch.vs16] ++ lit "  " ++ Path.name file_path
                     ++ lit " (no export function found)");;
              ret false
          | Some start_pos =>
              md_rel_path ← lift (Path.relative_to md_path (Path.parent file_path));
              tool_title ← lift (getitem md_info (lit "title"));
              what_it_does ← lift (getitem md_info (lit "what_it_does"));
              why_use ← lift (getitem md_info (lit "why_use"));
              parameters ← lift (getitem md_info (lit "parameters"));
              returns ← lift (getitem md_info (lit "returns"));
              example ← lift (getitem md_info (lit "example"));
              let jsdoc := jsdoc_template tool_title what_it_does why_use parameters
                             returns example md_rel_path in
              let new_content := splice content start_pos jsdoc in
              try_except
                (write_file file_path new_content;;
                 print (lit "   " ++ [Ch.check] ++ lit " " ++ Path.name file_path);;
                 ret true)
                (λ e, print (lit "   " ++ [Ch.cross] ++ lit " Could not write " ++ file_path
                             ++ lit ": " ++ exn_message e);;
                      ret false)
          end
  end.

(** The file names [main] passes over. *)
Definition multi_export_files : list (list N) :=
  [lit "cache-management.ts"; lit "persistence-tools.ts"; lit "index.ts"].

Definition multi_export_line (name : str) : str :=
  lit "   " ++ [Ch.next_track; Ch.vs16] ++ lit "  " ++ name ++ lit " (multi-export file)".

(** The sidecar name [main] pairs with a source file name; [fs_has] is what
    [md_file.exists()] answers. *)
Definition md_name (fs_has : str → bool) (category_dir name : str) : str :=
  let md_file := Path.with_suffix name (lit ".md") in
  if fs_has (Path.child category_dir md_file) then md_file
  else
    let base_name := Path.stem name in
    if bool_decide (base_name = lit "xcodebuild-test") then lit "test.md"
    else if bool_decide (base_name = lit "screenshot-inline")
    then lit "screenshot-inline.md"
    else md_file.

(** Lines 182 to 189 within the world: the one call of [exists] may raise. *)
Definition md_file_for (category_dir name : str) : M T (list N) :=
  λ w, match fs_path_exists (files w)
               (Path.child category_dir (Path.with_suffix name (lit ".md"))) with
       | Ok present => (Ok (md_name (λ _, present) category_dir name), w)
       | Raise e => (Raise e, w)
       end.

(** The inner loop of [main], over the source files of one category; the
    counters are [(total_count, success_count)]. *)
Fixpoint files_loop (category_dir : str) (ts_files : list (list N))
    (counts : nat * nat) : M T (nat * nat) :=
  match ts_files with
  | [] => ret counts
  | name :: rest =>
      if bool_decide (name ∈ multi_export_files) then
        print (multi_export_line name);;
        files_loop category_dir rest counts
      else
        md_file ← md_file_for category_dir name;
        updated ← add_jsdoc_to_file (Path.child category_dir name)
                     (Path.child category_dir md_file);
        files_loop category_dir rest
          (counts.1 + 1, if updated then counts.2 + 1 else counts.2)
  end.

Definition categories : list (list N) :=
  [lit "xcodebuild"; lit "simctl"; lit "idb"; lit "cache"; lit "persistence"].

(** The outer loop of [main]. *)
Fixpoint categories_loop (cats : list (list N)) (counts : nat * nat)
    : M T (nat * nat) :=
  match cats with
  | [] => ret counts
  | category :: rest =>
      let category_dir := lit "src/tools/" ++ category in
      ts_files ← (λ w, (Path.glob_ts (files w) category_dir, w));
      print ([Ch.folder] ++ lit " " ++ category ++ lit "/ ("
             ++ str_of_nat (length ts_files) ++ lit " tools)");;
      counts ← files_loop category_dir ts_files counts;
      categories_loop rest counts
  end.

(** [main] *)
Definition main : M T unit :=
  print ([Ch.books] ++ lit " Adding JSDoc documentation to tool files..." ++ [Ch.nl]);;
  counts ← categories_loop categories (0, 0);
  print ([Ch.nl; Ch.sparkles] ++ lit " Updated " ++ str_of_nat counts.2 ++ lit "/"
         ++ str_of_nat counts.1 ++ lit " tool files").

End WordTable.
End Inject.

(** ** A file system for the examples

    A tree of directories and text files, as a POSIX system shows it to a
    process that runs in the root directory: no links, no limits of its own
    on names, every permission granted, and texts stored in UTF-8.  What a
    platform refuses outright by the path text alone (a name too long, a
    name it cannot encode) is the table [refused]; a path with a null
    character is refused in any case.  [isprintable] is the table of the
    characters beyond ASCII that [repr()] prints as they are.  The data of a
    file is what reading it gives: its text, with every line end a line
    break, or the exception of a file that cannot be decoded. *)

Inductive node :=
| Dir
| File (data : result (list N)).

Record tree := Tree {
  nodes : gmap (list (list N)) node;
  refused : list N → option exn;
  isprintable : N → bool
}.

Module Posix.

(** [repr(s)] for a text: single quotes, unless the text has a single quote
    and no double quote; the quote, the backslash and what is not printable
    are escaped. *)
Definition hex_digit (d : N) : N := if (d <? 10)%N then (48 + d)%N else (87 + d)%N.

Fixpoint hex (width : nat) (c : N) : str :=
  match width with
  | O => []
  | S w => hex w (c / 16)%N ++ [hex_digit (c mod 16)%N]
  end.

Definition repr_char (printable : N → bool) (quote c : N) : str :=
  if (c =? quote)%N || (c =? Ch.backslash)%N then [Ch.backslash; c]
  else if (c =? 9)%N then lit "\t"
  else if (c =? 10)%N then lit "\n"
  else if (c =? 13)%N then lit "\r"
  else if (c <? 32)%N || (c =? 127)%N then lit "\x" ++ hex 2 c
  else if (c <? 127)%N then [c]
  else if printable c then [c]
  else if (c <? 256)%N then lit "\x" ++ hex 2 c
  else if (c <? 65536)%N then lit "\u" ++ hex 4 c
  else lit "\U" ++ hex 8 c.

Definition repr (printable : N → bool) (s : str) : str :=
  let quote :=
    if bool_decide (Ch.squote ∈ s) && negb (bool_decide (Ch.dquote ∈ s))
    then Ch.dquote else Ch.squote in
  [quote] ++ concat (map (repr_char printable quote) s) ++ [quote].

(** The errors of path resolution, and [str(e)] of the [OSError] made from
    one: the number, its text, and the path as it was given. *)
Inductive errno := ENOENT | EEXIST | ENOTDIR | EISDIR.

Definition message (t : tree) (number strerror path : str) : str :=
  lit "[Errno " ++ number ++ lit "] " ++ strerror ++ lit ": "
  ++ repr (isprintable t) path.

Definition os_error (t : tree) (e : errno) (path : str) : exn :=
  match e with
  | ENOENT =>
      FileNotFoundError (message t (lit "2") (lit "No such file or directory") path)
  | EEXIST => FileExistsError (message t (lit "17") (lit "File exists") path)
  | ENOTDIR => NotADirectoryError (message t (lit "20") (lit "Not a directory") path)
  | EISDIR => IsADirectoryError (message t (lit "21") (lit "Is a directory") path)
  end.

(** [except OSError] *)
Definition is_os_error (e : exn) : bool :=
  match e with
  | FileNotFoundError _ | FileExistsError _ | IsADirectoryError _
  | NotADirectoryError _ | PermissionError _ | OSError _ => true
  | _ => false
  end.

(** The components of a path: the texts between its slashes, the empty ones
    left out; and whether the path ends with a slash. *)
Definition components (p : str) : list str :=
  List.filter (λ c, negb (bool_decide (c = []))) (split Path.slash p).

Definition trailing_slash (p : str) : bool :=
  match last p with
  | Some c => (c =? Path.slash)%N
  | None => false
  end.

(** A place in the tree is the list of names that leads to it from the
    root.  The root is a directory; another place is one when the tree has
    [Dir] there. *)
Definition not_a_dir (n : gmap (list (list N)) node) (loc : list str) : option errno :=
  match loc with
  | [] => None
  | _ :: _ =>
      match n !! loc with
      | Some Dir => None
      | Some (File _) => Some ENOTDIR
      | None => Some ENOENT
      end
  end.

Definition dots (c : str) : bool :=
  bool_decide (c = lit ".") || bool_decide (c = lit "..").

(** One step from a directory; the parent of the root is the root. *)
Definition step (loc : list str) (c : str) : list str :=
  if bool_decide (c = lit ".") then loc
  else if bool_decide (c = lit "..") then removelast loc
  else loc ++ [c].

(** The directory in which the last component of a path is looked up: every
    component before the last is followed from a directory. *)
Fixpoint parent_of (n : gmap (list (list N)) node) (loc : list str) (c : str)
    (rest : list str) : errno + (list str * str) :=
  match not_a_dir n loc with
  | Some e => inl e
  | None =>
      match rest with
      | [] => inr (loc, c)
      | c' :: rest' => parent_of n (step loc c) c' rest'
      end
  end.

(** What a path leads to. *)
Inductive found :=
| Failed (e : errno)
| Directory (loc : list str)
| Regular (loc : list str) (data : result (list N)) (slash_after : bool)
| Missing (loc : list str) (slash_after : bool).

Definition stat (n : gmap (list (list N)) node) (p : str) : found :=
  if bool_decide (p = []) then Failed ENOENT
  else
    match components p with
    | [] => Directory []
    | c :: rest =>
        match parent_of n [] c rest with
        | inl e => Failed e
        | inr (loc, l) =>
            if dots l then Directory (step loc l)
            else
              match n !! (loc ++ [l]) with
              | Some Dir => Directory (loc ++ [l])
              | Some (File data) => Regular (loc ++ [l]) data (trailing_slash p)
              | None => Missing (loc ++ [l]) (trailing_slash p)
              end
        end
    end.

(** What is refused before the tree is looked at: a path with a null
    character, and what the platform refuses. *)
Definition refusal (t : tree) (p : str) : option exn :=
  if bool_decide (0%N ∈ p) then Some (ValueError (lit "embedded null byte"))
  else refused t p.

(** [os.path.exists] and [os.path.isdir] *)
Definition exists_ (t : tree) (p : str) : bool :=
  match refusal t p with
  | Some _ => false
  | None =>
      match stat (nodes t) p with
      | Directory _ => true
      | Regular _ _ slash_after => negb slash_after
      | _ => false
      end
  end.

Definition isdir (t : tree) (p : str) : bool :=
  match refusal t p with
  | Some _ => false
  | None =>
      match stat (nodes t) p with
      | Directory _ => true
      | _ => false
      end
  end.

(** [str(Path(p))]: the root, then the components that are not a single
    dot, joined by slashes; a single dot when nothing is left. *)
Definition pure_path (p : str) : str :=
  let root :=
    if startswith (lit "/") p then
      if startswith (lit "//") p && negb (startswith (lit "///") p) then lit "//"
      else lit "/"
    else [] in
  let parts := List.filter (λ c, negb (bool_decide (c = lit "."))) (components p) in
  let s := root ++ join (lit "/") parts in
  if bool_decide (s = []) then lit "." else s.

(** [Path(p).exists()]: on the path as [Path] writes it; the errors of a
    missing path and [ValueError] give [False], another exception is
    raised. *)
Definition path_exists (t : tree) (p : str) : result bool :=
  match refusal t (pure_path p) with
  | Some (FileNotFoundError _) | Some (NotADirectoryError _) | Some (ValueError _) =>
      Ok false
  | Some e => Raise e
  | None => Ok (exists_ t (pure_path p))
  end.

(** [open(p, 'r')] and [read()] *)
Definition read (t : tree) (p : str) : result (list N) :=
  match refusal t p with
  | Some e => Raise e
  | None =>
      match stat (nodes t) p with
      | Failed e => Raise (os_error t e p)
      | Directory _ => Raise (os_error t EISDIR p)
      | Regular _ data false => data
      | Regular _ _ true => Raise (os_error t ENOTDIR p)
      | Missing _ _ => Raise (os_error t ENOENT p)
      end
  end.

Definition with_nodes (t : tree) (n : gmap (list (list N)) node) : tree :=
  Tree n (refused t) (isprintable t).

(** What reading gives for the text written: every line end, [\r\n] or
    [\r], is read as a line break. *)
Fixpoint universal_newlines (s : str) : str :=
  match s with
  | [] => []
  | c :: s' =>
      if (c =? 13)%N then
        Ch.nl :: match s' with
                 | d :: s'' =>
                     if (d =? 10)%N then universal_newlines s''
                     else universal_newlines s'
                 | [] => []
                 end
      else c :: universal_newlines s'
  end.

(** Texts are written in UTF-8, in which a surrogate cannot be encoded:
    [write] raises [UnicodeEncodeError], a [ValueError], for the first run
    of surrogates of the text. *)
Definition is_surrogate (c : N) : bool := (55296 <=? c)%N && (c <=? 57343)%N.

Fixpoint surrogates_at (s : str) : str :=
  match s with
  | c :: s' => if is_surrogate c then c :: surrogates_at s' else []
  | [] => []
  end.

Fixpoint first_surrogates (s : str) (pos : nat) : option (nat * str) :=
  match s with
  | [] => None
  | c :: s' =>
      if is_surrogate c then Some (pos, c :: surrogates_at s')
      else first_surrogates s' (S pos)
  end.

Definition encode_error (content : str) : option exn :=
  match first_surrogates content 0 with
  | None => None
  | Some (pos, [c]) =>
      Some (ValueError (lit "'utf-8' codec can't encode character '\u" ++ hex 4 c
                        ++ lit "' in position " ++ str_of_nat pos
                        ++ lit ": surrogates not allowed"))
  | Some (pos, run) =>
      Some (ValueError (lit "'utf-8' codec can't encode characters in position "
                        ++ str_of_nat pos ++ lit "-"
                        ++ str_of_nat (pos + length run - 1)
                        ++ lit ": surrogates not allowed"))
  end.

(** [open(p, 'w')] and [write(content)]: the file is made in an existing
    directory, or emptied, and then holds the text, unless the text cannot
    be encoded. *)
Definition write (t : tree) (p content : str) : result unit * tree :=
  match refusal t p with
  | Some e => (Raise e, t)
  | None =>
      match stat (nodes t) p with
      | Failed e => (Raise (os_error t e p), t)
      | Directory _ => (Raise (os_error t EISDIR p), t)
      | Regular loc _ false | Missing loc false =>
          match encode_error content with
          | Some e => (Raise e, with_nodes t (<[loc := File (Ok [])]> (nodes t)))
          | None =>
              (Ok tt,
               with_nodes t (<[loc := File (Ok (universal_newlines content))]> (nodes t)))
          end
      | Regular _ _ true | Missing _ true => (Raise (os_error t EISDIR p), t)
      end
  end.

(** [os.mkdir(p)] *)
Definition mkdir (t : tree) (p : str) : result unit * tree :=
  match refusal t p with
  | Some e => (Raise e, t)
  | None =>
      match stat (nodes t) p with
      | Failed e => (Raise (os_error t e p), t)
      | Directory _ | Regular _ _ _ => (Raise (os_error t EEXIST p), t)
      | Missing loc _ => (Ok tt, with_nodes t (<[loc := Dir]> (nodes t)))
      end
  end.

(** [posixpath.split(p)] *)
Definition all_slashes (s : str) : bool := forallb (λ c, (c =? Path.slash)%N) s.

Fixpoint lstrip_slashes (s : str) : str :=
  match s with
  | c :: s' => if (c =? Path.slash)%N then lstrip_slashes s' else s
  | [] => []
  end.

Definition rstrip_slashes (s : str) : str := rev (lstrip_slashes (rev s)).

Definition psplit (p : str) : str * str :=
  let tail := Path.name p in
  let head := take (length p - length tail) p in
  (if bool_decide (head = []) || all_slashes head then head else rstrip_slashes head,
   tail).

(** [os.makedirs(name, exist_ok=True)], as the library has it: the head of
    the path is made first when it does not exist, then the directory
    itself; that it exists already is no error.  The head is shorter than
    the path, so a fuel of the length of the path is never used up. *)
Definition mkdir_exist_ok (t : tree) (name : str) : result unit * tree :=
  match mkdir t name with
  | (Raise e, t') =>
      if is_os_error e && isdir t' name then (Ok tt, t') else (Raise e, t')
  | done => done
  end.

Fixpoint makedirs_from (fuel : nat) (t : tree) (name : str) : result unit * tree :=
  let '(head0, tail0) := psplit name in
  let '(head, tail) := if bool_decide (tail0 = []) then psplit head0 else (head0, tail0) in
  if negb (bool_decide (head = [])) && negb (bool_decide (tail = []))
     && negb (exists_ t head)
  then
    match fuel with
    | O => mkdir_exist_ok t name
    | S fuel' =>
        match makedirs_from fuel' t head with
        | (Ok _, t') | (Raise (FileExistsError _), t') =>
            if bool_decide (tail = lit ".") then (Ok tt, t') else mkdir_exist_ok t' name
        | (Raise e, t') => (Raise e, t')
        end
    end
  else mkdir_exist_ok t name.

Definition makedirs (t : tree) (name : str) : result unit * tree :=
  makedirs_from (length name) t name.

(** The names of the entries of a directory. *)
Definition children (n : gmap (list (list N)) node) (loc : list str) : list str :=
  omap (λ key : list str,
          match reverse key with
          | name :: before =>
              if bool_decide (reverse before = loc) then Some name else None
          | [] => None
          end)
       (map fst (map_to_list n)).

Definition listdir (t : tree) (p : str) : result (list str) :=
  match refusal t p with
  | Some (FileNotFoundError _) | Some (NotADirectoryError _) | Some (ValueError _) =>
      Ok []
  | Some e => Raise e
  | None =>
      match stat (nodes t) p with
      | Directory loc => Ok (children (nodes t) loc)
      | _ => Ok []
      end
  end.

End Posix.

#[global] Instance tree_fs : FileSystem tree := {|
  fs_exists := Posix.exists_;
  fs_path_exists := Posix.path_exists;
  fs_read := Posix.read;
  fs_write := Posix.write;
  fs_makedirs := Posix.makedirs;
  fs_listdir := Posix.listdir
|}.

(** Trees for the examples: the empty root directory of a platform that
    refuses nothing, and the tree in which the given files have been
    created one after the other, each in its directory. *)
Definition empty_tree : tree := Tree ∅ (λ _, None) (λ _, true).

Definition with_file (t : tree) (file : str * str) : tree :=
  (fs_write (fs_makedirs t (Path.parent file.1)).2 file.1 file.2).2.

Definition tree_of (files : list (str * str)) : tree :=
  fold_left with_file files empty_tree.

(** ** Vocabulary of the specification *)

(** The first dash-delimited token of an identifier: its longest prefix
    without a dash. *)
Fixpoint first_token (s : str) : str :=
  match s with
  | [] => []
  | c :: s' => if (c =? Ch.dash)%N then [] else c :: first_token s'
  end.

(** The fixed set of categories. *)
Definition known_categories : list str :=
  [lit "xcodebuild"; lit "simctl"; lit "idb"; lit "cache"; lit "persistence"].

(** The non-blank lines of a list of lines. *)
Definition nonblank_lines (lines : list str) : list str :=
  filter (λ l, Is_true (Extract.nonblank l)) lines.

(** Lines written out, each followed by a line break. *)
Definition written (lines : list str) : str :=
  concat (map (λ l, l ++ [Ch.nl]) lines).

(** The start of a sidecar document as the specification words it: the
    heading, then the first [n] non-blank summary lines. *)
Definition heading_and_first_nonblank (n : nat) (tool_name description : str) : str :=
  lit "# " ++ tool_name ++ [Ch.nl; Ch.nl]
  ++ written (take n (nonblank_lines
       (Extract.summary_lines (Extract.scan_description description)))).

(** The advantages section of a sidecar document. *)
Definition advantages_section (advs : list str) : str :=
  match advs with
  | [] => []
  | _ :: _ => [Ch.nl] ++ lit "## Advantages" ++ [Ch.nl; Ch.nl] ++ written (take 5 advs)
  end.

(** Every character of a text is in a class, or none is. *)
Definition all_of (cls : char → bool) (s : str) : Prop := Forall (λ c, cls c = true) s.
Definition none_of (cls : char → bool) (s : str) : Prop := Forall (λ c, cls c = false) s.

(** A registration statement as text: the call, the quoted identifier and
    the [description] field up to its closing delimiter; [ws1] to [ws4] are
    the white space between the pieces, [q1], [q2], [d1] and [d2] the
    delimiters. *)
Definition registration_text (ws1 : str) (q1 : char) (name : str) (q2 : char)
    (ws2 ws3 ws4 : str) (d1 : char) (desc : str) (d2 : char) : str :=
  lit "this.server.registerTool(" ++ ws1 ++ q1 :: name ++ q2 ::
  lit "," ++ ws2 ++ lit "{" ++ ws3 ++ lit "description:" ++ ws4 ++
  d1 :: desc ++ [d2].

(** The sidecar path of a tool filed under a category directory. *)
Definition target (category_dir : str) (tool : str * str) : str :=
  Extract.md_path category_dir (Extract.get_tool_filename tool.1).

(** A tool is filed under a category of the grouping dictionary. *)
Definition filed (by_category : list (str * list (str * str)))
    (category : str) (tool : str * str) : Prop :=
  ∃ tools, Extract.by_category_get by_category category = Ok tools ∧ tool ∈ tools.

Definition is_print (e : event) : Prop :=
  match e with
  | Printed _ => True
  | _ => False
  end.

(** The three lines [main] prints last. *)
Definition summary_lines_printed (generated_count : nat) (tools : list (str * str))
    (keys : list str) : list event :=
  [Printed ([Ch.nl; Ch.sparkles] ++ lit " Generated " ++ str_of_nat generated_count
          ++ lit " documentation files");
   Printed ([Ch.chart] ++ lit " Total tools: " ++ str_of_nat (length tools));
   Printed ([Ch.open_folder] ++ lit " Categories: " ++ join (lit ", ") keys)].

(** What [main] has done when it reaches its loops. *)
Definition opening_trace (tools : list (str * str)) : list event :=
  [Printed ([Ch.page] ++ lit " Extracting tool documentation from index.ts...");
   OpenRead Extract.index_path;
   Printed ([Ch.check] ++ lit " Found " ++ str_of_nat (length tools) ++ lit " tools"
          ++ [Ch.nl])].

(** The line [add_jsdoc_to_file] prints for a file it leaves alone because
    of the marker. *)
Definition jsdoc_exists_line (file_path : str) : str :=
  lit "   " ++ [Ch.next_track; Ch.vs16] ++ lit "  " ++ Path.name file_path
  ++ lit " (JSDoc already exists)".

(** The message of the [TypeError] raised by the call in
    [add_jsdoc_to_file]. *)
Definition missing_argument : str :=
  lit "find_function_export() missing 1 required positional argument: 'tool_name'".

(** An event opens a given path, for reading or for writing. *)
Definition opens (path : str) (e : event) : Prop :=
  e = OpenRead path ∨ e = OpenWrite path.

(** An event that leaves the multi-export files alone: a printed line, or a
    file opened for reading whose name is not one of theirs. *)
Definition harmless (e : event) : Prop :=
  is_print e
  ∨ ∃ dir n, (Path.slash ∉ n) ∧ (n ∉ Inject.multi_export_files)
             ∧ e = OpenRead (Path.child dir n).

(** A text in which every line break is followed by a character that is not
    a line break: it has no empty line and does not end with a line break. *)
Fixpoint tight (s : str) : Prop :=
  match s with
  | [] => True
  | c :: s' =>
      (c = Ch.nl → match s' with [] => False | c' :: _ => c' ≠ Ch.nl end)
      ∧ tight s'
  end.

(** A sidecar document with an advantages section laid out as the extractor
    writes it: the heading line, an empty line, then the bullet lines;
    [before] is the text before the heading, [tail] the rest of the heading
    line and [after] the text after the last bullet line. *)
Definition sidecar_with_advantages (before tail : str) (bullets : list str)
    (after : str) : str :=
  before ++ lit "## Advantages" ++ tail ++ [Ch.nl; Ch.nl]
  ++ join [Ch.nl] bullets ++ after.

(** ** Further vocabulary *)

(** [if 'Advantages' in line or 'Benefits' in line or 'Features' in line] *)
Definition has_word (line : list N) : bool :=
  contains (lit "Advantages") line || contains (lit "Benefits") line
  || contains (lit "Features") line.

(** A line of an advantages block that is kept: a bullet once stripped. *)
Definition bullet_line (line : list N) : bool := Extract.is_bullet (strip line).

(** A text that runs up to an opening brace and then goes on with [rest]. *)
Definition brace_then (s rest : list N) : Prop := ∃ m, s = m ++ lit "{" ++ rest.
(** A matcher is sound for a property [Q] of the text it is run on and its
    answer; [sound2] is the same for a continuation that takes the text
    captured so far. *)
Definition sound1 {A : Type} (Q : list N → A → Prop) (k : list N → option A) : Prop :=
  ∀ s r, k s = Some r → Q s r.

Definition sound2 {A : Type} (Q : list N → A → Prop)
    (k : list N → list N → option A) : Prop :=
  ∀ acc s r, k acc s = Some r → Q s r.

(** The number of files opened for writing in a trace. *)
Definition is_write (e : event) : bool :=
  match e with
  | OpenWrite _ => true
  | _ => false
  end.

Definition write_count (tr : list event) : nat := length (List.filter is_write tr).

(** An event a run of the extractor can give rise to, for the tools
    registered in the aggregation source: a printed line, the aggregation
    source opened for reading, the category directory of a tool made, or
    the sidecar path of a tool opened for writing. *)
Definition extractor_event (tools : list (str * str)) (e : event) : Prop :=
  is_print e
  ∨ e = OpenRead Extract.index_path
  ∨ ∃ tool category,
      tool ∈ tools ∧ Extract.get_tool_category tool.1 = Ok category
      ∧ (e = MakeDirs (Extract.category_dir category)
         ∨ e = OpenWrite (target (Extract.category_dir category) tool)).

Section FileSystemVocabulary.
Context {T : Type} `{FileSystem T}.

(** Two laws of a file system: a file that has been written exists, and a
    path that exists still exists after a file has been written or a
    directory made, whether the call succeeded or not. *)
Definition written_file_exists : Prop :=
  ∀ (s s' : T) (path content : str),
    fs_write s path content = (Ok tt, s') → fs_exists s' path = true.

Definition existing_paths_stay : Prop :=
  ∀ (s : T) (path q : str),
    fs_exists s q = true →
    (∀ content, fs_exists (fs_write s path content).2 q = true)
    ∧ fs_exists (fs_makedirs s path).2 q = true.

(** What the extractor does for a tool it generates the sidecar of: it
    makes the category directory and, unless that raises, writes the
    formatted document to the sidecar path.  A step of a run is this, for a
    registered tool whose sidecar path does not exist. *)
Definition generate (s : T) (category : str) (tool : str * str) : T :=
  match fs_makedirs s (Extract.category_dir category) with
  | (Ok _, s1) =>
      (fs_write s1 (target (Extract.category_dir category) tool)
         (Extract.format_markdown tool.1 tool.2)).2
  | (Raise _, s1) => s1
  end.

Definition extractor_step (tools : list (str * str)) (s s' : T) : Prop :=
  ∃ tool category,
    tool ∈ tools ∧ Extract.get_tool_category tool.1 = Ok category
    ∧ fs_exists s (target (Extract.category_dir category) tool) = false
    ∧ s' = generate s category tool.

(** The tools a run of the extractor finds: those of the aggregation source
    when it exists and can be read, none otherwise. *)
Definition tools_found (fs : T) : list (str * str) :=
  if fs_exists fs Extract.index_path then
    match fs_read fs Extract.index_path with
    | Ok content => Extract.parse_tools content
    | Raise _ => []
    end
  else [].

(** A source file at which [add_jsdoc_to_file] raises: it can be read, has
    no comment marker within its first 500 characters, and reading its
    sidecar does not raise [FileNotFoundError]: either the sidecar is read,
    and the call of the locator raises, or the exception of reading it
    leaves the function. *)
Definition documentable (fs : T) (file_path md_path : str) : bool :=
  match fs_read fs file_path with
  | Ok content =>
      negb (Inject.jsdoc_exists content)
      && match fs_read fs md_path with
         | Raise (FileNotFoundError _) => false
         | _ => true
         end
  | Raise _ => false
  end.

(** The same for a file name of a category directory, with the sidecar
    [main] pairs with it; the multi-export files are not looked at, and the
    check that the sidecar exists may raise itself. *)
Definition documentable_in (fs : T) (dir n : str) : bool :=
  negb (bool_decide (n ∈ Inject.multi_export_files))
  && match fs_path_exists fs (Path.child dir (Path.with_suffix n (lit ".md"))) with
     | Ok present =>
         documentable fs (Path.child dir n)
           (Path.child dir (Inject.md_name (λ _, present) dir n))
     | Raise _ => true
     end.

(** The names [main] goes through in a category directory; none when the
    listing raises. *)
Definition listed (fs : T) (dir : str) : list str :=
  match Path.glob_ts fs dir with
  | Ok names => names
  | Raise _ => []
  end.

(** A category at which a run of the injector ends with an exception: the
    listing of its directory raises, or one of its files is documentable. *)
Definition halts_in (fs : T) (category : str) : bool :=
  match Path.glob_ts fs (lit "src/tools/" ++ category) with
  | Ok names => existsb (documentable_in fs (lit "src/tools/" ++ category)) names
  | Raise _ => true
  end.

Definition halts_somewhere (fs : T) : Prop :=
  ∃ category, category ∈ Inject.categories ∧ halts_in fs category = true.

(** The source files of a category that [main] counts, and their number
    over a list of categories. *)
Definition tool_names (names : list str) : list str :=
  List.filter (λ n, negb (bool_decide (n ∈ Inject.multi_export_files))) names.

Definition tool_file_count (fs : T) (cats : list str) : nat :=
  length (concat (map (λ c, tool_names (listed fs (lit "src/tools/" ++ c))) cats)).

End FileSystemVocabulary.

(** The line [add_jsdoc_to_file] prints for a source file that cannot be
    read, and the one for a source file without a sidecar. *)
Definition could_not_read_line (file_path : str) (e : exn) : str :=
  lit "   " ++ [Ch.cross] ++ lit " Could not read " ++ file_path ++ lit ": "
  ++ exn_message e.

Definition no_markdown_line (file_path : str) : str :=
  lit "   " ++ [Ch.warning; Ch.vs16] ++ lit "  " ++ Path.name file_path
  ++ lit " (no markdown found)".

(** A tree of the examples grows when its directories stay directories and
    its entries stay entries; a call leaves a tree that has grown and
    differs in its nodes only. *)
Definition grows (n n' : gmap (list (list N)) node) : Prop :=
  (∀ k, n !! k = Some Dir → n' !! k = Some Dir)
  ∧ (∀ k, is_Some (n !! k) → is_Some (n' !! k)).

Definition grown (t t' : tree) : Prop :=
  ∃ n', t' = Posix.with_nodes t n' ∧ grows (nodes t) n'.

(** A line of the parameters text that is kept: not empty once stripped,
    and not then starting with a hash. *)
Definition kept_param_line (l : str) : bool :=
  negb (bool_decide (strip l = [])) && negb (startswith [Ch.hash] (strip l)).

(** The six keys of the dictionary [load_md_content] returns. *)
Definition md_keys : list str :=
  [lit "title"; lit "what_it_does"; lit "why_use"; lit "parameters"; lit "returns";
   lit "example"].

(** * Properties *)

Section SplitFacts.
Variable sep : char.

Lemma split_nonempty (s : str) : split sep s ≠ [].
Proof. destruct s as [|c s]; simpl; [done|]. case_match; [done|]. by case_match. Qed.

Lemma split1_nonempty (s : str) : split1 sep s ≠ [].
Proof. destruct s as [|c s]; simpl; [done|]. case_match; [done|]. by case_match. Qed.

Lemma split1_no_sep (s : str) : sep ∉ s → split1 sep s = [s].
Proof.
  induction s as [|c s IH]; intros Hs; [done|].
  simpl. apply not_elem_of_cons in Hs as [Hc Hs].
  destruct (N.eqb_spec c sep) as [->|_]; [done|].
  by rewrite IH.
Qed.

Lemma split1_at_sep (tok rest : str) :
  sep ∉ tok → split1 sep (tok ++ sep :: rest) = [tok; rest].
Proof.
  induction tok as [|c tok IH]; intros Hs; simpl.
  - by rewrite N.eqb_refl.
  - apply not_elem_of_cons in Hs as [Hc Hs].
    destruct (N.eqb_spec c sep) as [->|_]; [done|].
    by rewrite IH.
Qed.
End SplitFacts.

Lemma split_dash_head (s : str) :
  split Ch.dash s !! 0 = Some (first_token s).
Proof.
  induction s as [|c s IH]; [done|].
  simpl. destruct (c =? Ch.dash)%N; [done|].
  destruct (split Ch.dash s) as [|w ws]; [done|].
  simpl in *. congruence.
Qed.

Lemma categories_loop_known (t : list N) :
  Extract.categories_loop t Extract.categories =
    if bool_decide (t ∈ known_categories) then Some t else None.
Proof.
  unfold Extract.categories, known_categories; simpl Extract.categories_loop.
  destruct (decide (t = lit "xcodebuild")) as [->|H1]; [by vm_compute|].
  destruct (decide (t = lit "simctl")) as [->|H2]; [by vm_compute|].
  destruct (decide (t = lit "idb")) as [->|H3]; [by vm_compute|].
  destruct (decide (t = lit "cache")) as [->|H4]; [by vm_compute|].
  destruct (decide (t = lit "persistence")) as [->|H5]; [by vm_compute|].
  rewrite !(bool_decide_false (t = _)) by done.
  rewrite bool_decide_false; [done|].
  rewrite !elem_of_cons, elem_of_nil. tauto.
Qed.

Lemma get_tool_category_returns (tool_name : list N) :
  ∃ category, Extract.get_tool_category tool_name = Ok category.
Proof.
  unfold Extract.get_tool_category. rewrite split_dash_head.
  destruct (Extract.categories_loop _ _); by eexists.
Qed.

(** C6: the classifier always returns normally; the result is the
    identifier's first dash-delimited token when that token is one of
    xcodebuild, simctl, idb, cache, persistence, and the text [unknown] for
    every other first token. *)
Theorem get_tool_category_first_token (tool_name : str) :
  Extract.get_tool_category tool_name =
    Ok (if bool_decide (first_token tool_name ∈ known_categories)
        then first_token tool_name
        else lit "unknown").
Proof.
  unfold Extract.get_tool_category.
  rewrite split_dash_head, categories_loop_known.
  by case_bool_decide.
Qed.

(** C7: for an identifier with a dash, the derived name is what follows the
    first dash; an identifier without a dash is returned unchanged. *)
Theorem get_tool_filename_strips_prefix (tool_name : str) :
  (∀ tok rest : str,
      tool_name = tok ++ Ch.dash :: rest → Ch.dash ∉ tok →
      Extract.get_tool_filename tool_name = rest)
  ∧ (Ch.dash ∉ tool_name → Extract.get_tool_filename tool_name = tool_name).
Proof.
  split.
  - intros tok rest -> Htok. unfold Extract.get_tool_filename.
    rewrite split1_at_sep; [|done]. reflexivity.
  - intros Hno. unfold Extract.get_tool_filename.
    rewrite split1_no_sep; [|done]. reflexivity.
Qed.

(** ** The sidecar formatter *)

Lemma fold_add_summary_line (lines : list str) (md : str) :
  fold_left Extract.add_summary_line lines md = md ++ written (nonblank_lines lines).
Proof.
  revert md. induction lines as [|l lines IH]; intros md; simpl.
  - by rewrite app_nil_r.
  - rewrite IH. unfold Extract.add_summary_line, nonblank_lines, written.
    rewrite filter_cons. destruct (Extract.nonblank l); simpl.
    + by rewrite <- !app_assoc.
    + done.
Qed.

Lemma fold_add_advantage (advs : list str) (md : str) :
  fold_left Extract.add_advantage advs md = md ++ written advs.
Proof.
  revert md. induction advs as [|a advs IH]; intros md; simpl.
  - by rewrite app_nil_r.
  - rewrite IH. unfold Extract.add_advantage, written. simpl.
    by rewrite <- !app_assoc.
Qed.

(** C4, as the code has it: the document is the level-1 heading with the raw
    identifier, then the non-blank lines among the first five summary lines,
    then the advantages section and the fixed scaffold. *)
Theorem format_markdown_head (tool_name description : str) :
  let st := Extract.scan_description description in
  Extract.format_markdown tool_name description =
    lit "# " ++ tool_name ++ [Ch.nl; Ch.nl]
    ++ written (nonblank_lines (take 5 (Extract.summary_lines st)))
    ++ advantages_section (Extract.advantages st)
    ++ Extract.scaffold tool_name.
Proof.
  intros st. unfold Extract.format_markdown. fold st.
  rewrite fold_add_summary_line.
  unfold advantages_section.
  destruct (Extract.advantages st) as [|a advs] eqn:Hadv.
  - by rewrite <- !app_assoc.
  - rewrite fold_add_advantage. by rewrite <- !app_assoc.
Qed.

(** C4, as the claim words it, fails: with a blank line among the first five
    summary lines, the fifth non-blank line is not written. *)
Lemma format_markdown_not_first_five_nonblank :
  let tool_name := lit "cache-clear" in
  let description := lit "Clear the caches

second
third
fourth
fifth" in
  ¬ (heading_and_first_nonblank 5 tool_name description
       `prefix_of` Extract.format_markdown tool_name description).
Proof.
  intros tool_name description H.
  apply (bool_decide_pack _) in H. vm_compute in H. exact H.
Qed.

(** ** The registration pattern *)

Section ReFacts.
Context {A : Type}.

Lemma startswith_app (p s : str) : startswith p (p ++ s) = true.
Proof. induction p as [|c p IH]; [done|]. simpl. by rewrite N.eqb_refl. Qed.

Lemma text_app (p : str) (k : str → option A) (s : str) :
  Re.text p k (p ++ s) = k s.
Proof. unfold Re.text. by rewrite startswith_app, drop_app_length. Qed.

Lemma one_cons (cls : char → bool) (k : char → str → option A) c s :
  cls c = true → Re.one cls k (c :: s) = k c s.
Proof. intros H. simpl. by rewrite H. Qed.

(** A greedy star takes a whole run when the text after the run does not
    continue it and the rest of the pattern then succeeds. *)
Lemma star_from_run (cls : char → bool) (k : str → str → option A)
    (acc run s : str) (r : A) :
  all_of cls run →
  match s with c :: _ => cls c = false | [] => True end →
  k (acc ++ run) s = Some r →
  Re.star_from cls k acc (run ++ s) = Some r.
Proof.
  intros Hrun Hs. revert acc. induction Hrun as [|c run Hc Hrun IH]; intros acc Hk.
  - rewrite app_nil_r in Hk. simpl.
    destruct s as [|c s]; [done|]. simpl. by rewrite Hs.
  - simpl. rewrite Hc. rewrite IH; [done|].
    by rewrite <- app_assoc.
Qed.

Lemma star_run (cls : char → bool) (k : str → str → option A)
    (run s : str) (r : A) :
  all_of cls run →
  match s with c :: _ => cls c = false | [] => True end →
  k run s = Some r →
  Re.star cls k (run ++ s) = Some r.
Proof. intros. by apply star_from_run. Qed.

Lemma plus_run (cls : char → bool) (k : str → str → option A)
    (run s : str) (r : A) :
  run ≠ [] →
  all_of cls run →
  match s with c :: _ => cls c = false | [] => True end →
  k run s = Some r →
  Re.plus cls k (run ++ s) = Some r.
Proof.
  intros Hne Hrun Hs Hk. destruct run as [|c run]; [done|].
  inversion Hrun; subst. unfold Re.plus. simpl.
  rewrite H1. by apply star_from_run.
Qed.

Lemma finditer_skip (m : str → option (A * str)) (passed s : str) :
  Re.finditer m (length passed) (passed ++ s) = Re.finditer m 0 s.
Proof. induction passed as [|c passed IH]; [by destruct s|]. done. Qed.

Lemma finditer_miss (m : str → option (A * str)) (before s : str) :
  (∀ i, i < length before → m (drop i before ++ s) = None) →
  Re.finditer m 0 (before ++ s) = Re.finditer m 0 s.
Proof.
  induction before as [|c before IH]; intros H; [done|].
  assert (m (c :: before ++ s) = None) as H0 by (apply (H 0); simpl; lia).
  simpl. rewrite H0.
  apply IH. intros i Hi. apply (H (S i)). simpl. lia.
Qed.

Lemma finditer_hit (m : str → option (A * str)) (a : A) (matched rest : str) :
  matched ≠ [] →
  m (matched ++ rest) = Some (a, rest) →
  Re.finditer m 0 (matched ++ rest) = a :: Re.finditer m 0 rest.
Proof.
  intros Hne Hm. destruct matched as [|c matched]; [done|].
  simpl in *. rewrite Hm. f_equal.
  replace (S (length (matched ++ rest)) - length rest - 1) with (length matched)
    by (rewrite length_app; lia).
  apply finditer_skip.
Qed.
End ReFacts.

Lemma quote_not_space c : Re.quote c = true → isspace c = false.
Proof.
  unfold Re.quote. intros [H|H]%orb_true_iff; apply N.eqb_eq in H; by subst.
Qed.

Lemma tick_or_quote_not_space c : Re.tick_or_quote c = true → isspace c = false.
Proof.
  unfold Re.tick_or_quote. intros [H|H]%orb_true_iff; apply N.eqb_eq in H; by subst.
Qed.

Lemma all_of_negb (cls : char → bool) (s : str) :
  none_of cls s → all_of (λ c, negb (cls c)) s.
Proof. intros H. eapply Forall_impl; [exact H|]. by intros c ->. Qed.

(** The pattern matches a registration statement at the start of a text,
    with the identifier and the description as its groups. *)
Lemma registration_matches ws1 q1 name q2 ws2 ws3 ws4 d1 desc d2 (rest : str) :
  all_of isspace ws1 → all_of isspace ws2 →
  all_of isspace ws3 → all_of isspace ws4 →
  Re.quote q1 = true → Re.quote q2 = true →
  Re.tick_or_quote d1 = true → Re.tick_or_quote d2 = true →
  name ≠ [] → none_of Re.quote name →
  none_of Re.tick_or_quote desc →
  Extract.registration
    (registration_text ws1 q1 name q2 ws2 ws3 ws4 d1 desc d2 ++ rest)
  = Some ((name, desc), rest).
Proof.
  intros Hw1 Hw2 Hw3 Hw4 Hq1 Hq2 Hd1 Hd2 Hne Hname Hdesc.
  unfold Extract.registration, registration_text.
  rewrite <- !app_assoc. rewrite text_app.
  apply star_run; [done | by apply quote_not_space |].
  rewrite <- !app_comm_cons. rewrite one_cons by done.
  rewrite <- !app_assoc.
  apply plus_run; [done | by apply all_of_negb | by simpl; rewrite Hq2 |].
  rewrite <- !app_comm_cons. rewrite one_cons by done.
  rewrite <- !app_assoc. rewrite text_app.
  apply star_run; [done | done |].
  rewrite text_app.
  apply star_run; [done | done |].
  rewrite text_app.
  apply star_run; [done | by apply tick_or_quote_not_space |].
  rewrite <- !app_comm_cons. rewrite one_cons by done.
  rewrite <- app_assoc. change ([d2] ++ rest) with (d2 :: rest).
  apply star_run; [by apply all_of_negb | by simpl; rewrite Hd2 |].
  unfold Re.alt, Re.star. cbn [Re.star_from]. rewrite Hd2. cbn [negb].
  unfold Extract.registration_close. rewrite one_cons by done.
  by rewrite app_nil_r.
Qed.

(** C5, as the code has it: a registration statement whose description has
    no backtick and no double quote inside (it may span lines and contain
    single quotes) is captured whole, identifier and description, the
    description stripped and its backslash-n sequences turned into line
    breaks; the search then goes on after the statement.  [before] is text
    in which no match starts. *)
Theorem parse_tools_captures (before : str) ws1 q1 name q2 ws2 ws3 ws4 d1 desc d2
    (rest : str) :
  let statement := registration_text ws1 q1 name q2 ws2 ws3 ws4 d1 desc d2 in
  all_of isspace ws1 → all_of isspace ws2 →
  all_of isspace ws3 → all_of isspace ws4 →
  Re.quote q1 = true → Re.quote q2 = true →
  Re.tick_or_quote d1 = true → Re.tick_or_quote d2 = true →
  name ≠ [] → none_of Re.quote name →
  none_of Re.tick_or_quote desc →
  (∀ i, i < length before →
        Extract.registration (drop i before ++ statement ++ rest) = None) →
  Extract.parse_tools (before ++ statement ++ rest) =
    (name, Extract.clean_description desc) :: Extract.parse_tools rest.
Proof.
  intros statement Hw1 Hw2 Hw3 Hw4 Hq1 Hq2 Hd1 Hd2 Hne Hname Hdesc Hbefore.
  unfold Extract.parse_tools.
  rewrite finditer_miss by done.
  rewrite (finditer_hit _ (name, desc)); [done | by destruct ws1 |].
  by apply registration_matches.
Qed.

Lemma parse_tools_captures_witness :
  Extract.parse_tools
    (lit "  " ++
     registration_text (lit "
    ") Ch.squote (lit "simctl-boot") Ch.squote (lit "
    ") (lit "
      ") (lit " ") Ch.backtick (lit "Boot a device.\nIt's slow:
wait for it.  ") Ch.backtick ++ lit ",") =
  [(lit "simctl-boot", lit "Boot a device.
It's slow:
wait for it.")].
Proof.
  refine (eq_trans (parse_tools_captures (lit "  ") _ _ _ _ _ _ _ _ _ _ (lit ",")
            _ _ _ _ _ _ _ _ _ _ _ _) _);
    try (by apply (bool_decide_unpack _); vm_compute);
    try (by vm_compute).
  intros i Hi. destruct i as [|[|i]]; [by vm_compute | by vm_compute |].
  simpl in Hi. lia.
Defined.

(** C5, as the claim words it, fails: a description written between
    backticks that contains a double quote is cut at that quote. *)
Lemma parse_tools_cuts_at_nested_delimiter :
  let desc := lit "Run " ++ [Ch.dquote] ++ lit "xcodebuild" ++ [Ch.dquote]
              ++ lit " for me" in
  let statement :=
    registration_text [] Ch.squote (lit "xcodebuild-build") Ch.squote
      (lit " ") (lit " ") (lit " ") Ch.backtick desc Ch.backtick in
  Extract.parse_tools (statement ++ lit ", inputSchema: {} });")
    = [(lit "xcodebuild-build", lit "Run")]
  ∧ (lit "xcodebuild-build", Extract.clean_description desc)
      ∉ Extract.parse_tools (statement ++ lit ", inputSchema: {} });").
Proof.
  intros desc statement. split; [by vm_compute|].
  intros H. apply (bool_decide_pack _) in H. by vm_compute in H.
Qed.

(** ** The extractor's run *)

Lemma insert_sorted_elem (x y : list N) (l : list (list N)) :
  y ∈ insert_sorted x l ↔ y = x ∨ y ∈ l.
Proof.
  induction l as [|z l IH]; simpl.
  - rewrite list_elem_of_singleton, elem_of_nil. tauto.
  - destruct (str_leb x z).
    + by rewrite elem_of_cons.
    + rewrite !elem_of_cons, IH. tauto.
Qed.

Lemma sorted_elem (y : list N) (l : list (list N)) : y ∈ sorted l ↔ y ∈ l.
Proof.
  induction l as [|x l IH]; [done|].
  unfold sorted in *. simpl. rewrite insert_sorted_elem, elem_of_cons, IH. tauto.
Qed.

Lemma filed_key bc category tool :
  filed bc category tool → category ∈ map fst bc.
Proof.
  intros (tools & Hget & _). induction bc as [|[c ts] bc IH]; [done|].
  simpl in *. case_bool_decide; subst; [by left|right; by apply IH].
Qed.

Lemma key_get bc category :
  category ∈ map fst bc → ∃ tools, Extract.by_category_get bc category = Ok tools.
Proof.
  induction bc as [|[c ts] bc IH]; simpl; intros H; [by apply elem_of_nil in H|].
  case_bool_decide; [by eexists|].
  apply elem_of_cons in H as [->|H]; [done|]. by apply IH.
Qed.

Lemma filed_append_new bc category tool :
  filed (Extract.by_category_append bc category tool) category tool.
Proof.
  unfold filed. induction bc as [|[c ts] bc IH]; simpl.
  - exists [tool]. rewrite bool_decide_true by done. split; [done|]. by left.
  - case_bool_decide as Hc; simpl.
    + exists (ts ++ [tool]). rewrite bool_decide_true by done.
      split; [done|]. apply elem_of_app. right. by left.
    + destruct IH as (tools & Hget & Hin). exists tools.
      by rewrite bool_decide_false.
Qed.

Lemma filed_append_old bc category tool category' tool' :
  filed bc category' tool' →
  filed (Extract.by_category_append bc category tool) category' tool'.
Proof.
  unfold filed. intros (tools & Hget & Hin).
  induction bc as [|[c ts] bc IH]; simpl in *; [done|].
  destruct (decide (c = category)) as [Hc|Hc];
    destruct (decide (c = category')) as [Hc'|Hc'].
  - rewrite !bool_decide_true in * by done. simpl.
    rewrite bool_decide_true by done.
    injection Hget as <-. exists (ts ++ [tool]). split; [done|].
    apply elem_of_app. by left.
  - rewrite bool_decide_true by done.
    rewrite bool_decide_false in Hget by done. simpl.
    rewrite bool_decide_false by done. by exists tools.
  - rewrite bool_decide_false by done.
    rewrite bool_decide_true in Hget by done. simpl.
    rewrite bool_decide_true by done. by exists tools.
  - rewrite bool_decide_false by done.
    rewrite bool_decide_false in Hget by done. simpl.
    rewrite bool_decide_false by done. by apply IH.
Qed.

Lemma group_loop_files tools acc :
  ∃ bc, Extract.group_loop tools acc = Ok bc
    ∧ (∀ c t, filed acc c t → filed bc c t)
    ∧ (∀ t, t ∈ tools →
         ∃ c, Extract.get_tool_category t.1 = Ok c ∧ filed bc c t).
Proof.
  revert acc. induction tools as [|[name desc] tools IH]; intros acc; simpl.
  - exists acc. split; [done|]. split; [done|].
    intros t Ht. by apply elem_of_nil in Ht.
  - destruct (get_tool_category_returns name) as [category Hcat]. rewrite Hcat.
    destruct (IH (Extract.by_category_append acc category (name, desc)))
      as (bc & Hbc & Hold & Hnew).
    exists bc. split; [done|]. split.
    + intros c t Hf. by apply Hold, filed_append_old.
    + intros t [->|Ht]%elem_of_cons.
      * exists category. split; [done|]. apply Hold, filed_append_new.
      * by apply Hnew.
Qed.

Lemma filed_append_inv bc category tool category' tool' :
  filed (Extract.by_category_append bc category tool) category' tool' →
  filed bc category' tool' ∨ (category' = category ∧ tool' = tool).
Proof.
  unfold filed. induction bc as [|[c ts] bc IH]; simpl.
  - intros (tools & Hget & Hin). case_bool_decide; [|done].
    injection Hget as <-. apply list_elem_of_singleton in Hin. by right.
  - destruct (decide (c = category)) as [Hc|Hc].
    + rewrite bool_decide_true by done. simpl.
      intros (tools & Hget & Hin). case_bool_decide as Hc'.
      * injection Hget as <-. apply elem_of_app in Hin as [Hin|Hin].
        -- left. by exists ts.
        -- apply list_elem_of_singleton in Hin. right. split; congruence.
      * left. by exists tools.
    + rewrite bool_decide_false by done. simpl.
      intros (tools & Hget & Hin). case_bool_decide as Hc'.
      * left. by exists tools.
      * apply IH. by exists tools.
Qed.

Lemma group_loop_sound tools acc bc c t :
  Extract.group_loop tools acc = Ok bc → filed bc c t →
  filed acc c t ∨ (t ∈ tools ∧ Extract.get_tool_category t.1 = Ok c).
Proof.
  revert acc. induction tools as [|[name desc] tools IH]; intros acc; simpl.
  - intros [= <-] Hf. by left.
  - destruct (Extract.get_tool_category name) as [category|e] eqn:Hcat; [|done].
    intros Hrun Hf. destruct (IH _ Hrun Hf) as [Hacc|[Hin Hc]].
    + apply filed_append_inv in Hacc as [Hacc|[-> ->]]; [by left|].
      right. split; [by left|done].
    + right. split; [by right|done].
Qed.

Lemma not_filed_nil c t : ¬ filed [] c t.
Proof. by intros (tools & Hget & _). Qed.

Lemma write_count_app (a b : list event) :
  write_count (a ++ b) = write_count a + write_count b.
Proof. unfold write_count. by rewrite List.filter_app, length_app. Qed.

Lemma not_in_prints (e : event) (tr : list event) :
  Forall is_print tr → ¬ is_print e → e ∉ tr.
Proof. rewrite Forall_forall. intros Hall He Hin. by apply He, Hall. Qed.

Section ExtractorRun.
Context {T : Type} `{FileSystem T}.

(** One turn of the inner loop. *)
Lemma tools_loop_cons (dir name desc : list N) (tools : list (list N * list N))
    (n : nat) (w : world T) :
  let md := Extract.md_path dir (Extract.get_tool_filename name) in
  Extract.tools_loop dir ((name, desc) :: tools) n w =
    if fs_exists (files w) md then
      Extract.tools_loop dir tools n
        (World (files w)
           (trace w ++ [Printed (Extract.already_exists_line
                                   (Extract.get_tool_filename name))]))
    else
      match fs_makedirs (files w) dir with
      | (Raise e, s1) => (Raise e, World s1 (trace w ++ [MakeDirs dir]))
      | (Ok _, s1) =>
          match fs_write s1 md (Extract.format_markdown name desc) with
          | (Raise e, s2) => (Raise e, World s2 (trace w ++ [MakeDirs dir; OpenWrite md]))
          | (Ok _, s2) =>
              Extract.tools_loop dir tools (n + 1)
                (World s2
                   (trace w ++ [MakeDirs dir; OpenWrite md;
                                Printed (lit "   " ++ [Ch.check] ++ lit " "
                                         ++ Extract.get_tool_filename name
                                         ++ lit ".md")]))
          end
      end.
Proof.
  intros md. subst md. cbn [Extract.tools_loop].
  unfold bind at 1. unfold path_exists.
  destruct (fs_exists _ _); [done|].
  unfold bind at 1. unfold makedirs, bind at 1, emit. cbn [files trace].
  destruct (fs_makedirs (files w) dir) as [[[]|e] s1]; cbn [fst snd]; [|done].
  unfold bind at 1. unfold write_file, bind at 1, emit, store. cbn [files trace].
  destruct (fs_write s1 _ _) as [[[]|e] s2]; cbn [fst snd].
  - unfold bind at 1. unfold print, emit. cbn [files trace].
    by rewrite <- !app_assoc.
  - by rewrite <- !app_assoc.
Qed.

(** One turn of the outer loop. *)
Lemma categories_walk_cons bc (k : list N) (keys : list (list N))
    (tools : list (list N * list N)) (n : nat) (w : world T) :
  Extract.by_category_get bc k = Ok tools →
  Extract.categories_walk bc (k :: keys) n w =
    match Extract.tools_loop (Extract.category_dir k) tools n
            (World (files w)
               (trace w ++ [Printed ([Ch.folder] ++ lit " " ++ k ++ lit "/ ("
                                     ++ str_of_nat (length tools) ++ lit " tools)")]))
    with
    | (Ok n', w') => Extract.categories_walk bc keys n' w'
    | (Raise e, w') => (Raise e, w')
    end.
Proof.
  intros Hget. cbn [Extract.categories_walk].
  unfold bind at 1. unfold lift. rewrite Hget.
  unfold bind at 1. unfold print, emit. by unfold bind at 1.
Qed.

Lemma main_without_index (fs : T) :
  fs_exists fs Extract.index_path = false →
  Extract.main (World fs []) =
    (Ok tt, World fs
       [Printed ([Ch.page] ++ lit " Extracting tool documentation from index.ts...");
        Printed ([Ch.cross] ++ lit " Could not find src/index.ts")]).
Proof.
  intros Hno. unfold Extract.main, bind, print, emit, path_exists.
  simpl. by rewrite Hno.
Qed.

Lemma main_unreadable_index (fs : T) (e : exn) :
  fs_exists fs Extract.index_path = true →
  fs_read fs Extract.index_path = Raise e →
  Extract.main (World fs []) =
    (Raise e, World fs
       [Printed ([Ch.page] ++ lit " Extracting tool documentation from index.ts...");
        OpenRead Extract.index_path]).
Proof.
  intros Hex Hread. unfold Extract.main.
  unfold bind at 1. unfold print at 1, emit.
  unfold bind at 1. unfold path_exists. cbn [files trace]. rewrite Hex. cbn [negb].
  unfold bind at 1. unfold Extract.parse_index_ts.
  unfold bind at 1. unfold read_file, bind at 1, emit, load. cbn [files trace].
  by rewrite Hread.
Qed.

Lemma main_with_index (fs : T) (content : list N)
    (bc : list (list N * list (list N * list N))) :
  fs_exists fs Extract.index_path = true →
  fs_read fs Extract.index_path = Ok content →
  Extract.group_loop (Extract.parse_tools content) [] = Ok bc →
  Extract.main (World fs []) =
    match Extract.categories_walk bc (sorted (map fst bc)) 0
            (World fs (opening_trace (Extract.parse_tools content))) with
    | (Ok n, w) =>
        (Ok tt, World (files w)
                  (trace w ++ summary_lines_printed n (Extract.parse_tools content)
                                (sorted (map fst bc))))
    | (Raise e, w) => (Raise e, w)
    end.
Proof.
  intros Hex Hidx Hbc. unfold Extract.main.
  unfold bind at 1. unfold print at 1, emit.
  unfold bind at 1. unfold path_exists. cbn [files trace].
  rewrite Hex. cbn [negb].
  unfold bind at 1. unfold Extract.parse_index_ts.
  unfold bind at 1. unfold read_file, bind at 1, emit, load. cbn [files trace].
  rewrite Hidx. unfold ret.
  unfold bind at 1. unfold print at 1, emit. cbn [files trace].
  unfold bind at 1. unfold lift. rewrite Hbc.
  unfold bind at 1. unfold opening_trace. cbn [app].
  destruct (Extract.categories_walk _ _ _ _) as [[n|e] w]; [|done].
  unfold bind, print, emit. cbn [files trace].
  unfold summary_lines_printed. by rewrite <- !app_assoc.
Qed.

(** C2, as the code has it: when [src/index.ts] does not exist, the run
    prints its banner and the message that the file could not be found,
    returns at once with exit status 0, opens no file and leaves the file
    system as it was. *)
Theorem main_missing_index (fs : T) :
  fs_exists fs Extract.index_path = false →
  run_script Extract.main fs =
    (World fs
       [Printed ([Ch.page] ++ lit " Extracting tool documentation from index.ts...");
        Printed ([Ch.cross] ++ lit " Could not find src/index.ts")],
     0).
Proof. intros Hno. unfold run_script. by rewrite main_without_index. Qed.

(** *** The first run: what exists afterwards *)

Lemma tools_loop_creates dir tools n w n' w' :
  written_file_exists (T := T) → existing_paths_stay (T := T) →
  Extract.tools_loop dir tools n w = (Ok n', w') →
  (∀ q, fs_exists (files w) q = true → fs_exists (files w') q = true)
  ∧ ∀ t, t ∈ tools → fs_exists (files w') (target dir t) = true.
Proof.
  intros Hwritten Hstay. revert n w.
  induction tools as [|[name desc] tools IH]; intros n w.
  - intros [= <- <-]. split; [done|]. intros t Ht. by apply elem_of_nil in Ht.
  - rewrite tools_loop_cons. cbv zeta.
    destruct (fs_exists (files w) _) eqn:Hex.
    + intros Hrun. destruct (IH _ _ Hrun) as [Hkeep Hall]. cbn [files] in Hkeep.
      split; [done|].
      intros t [->|Ht]%elem_of_cons; [|by apply Hall]. by apply Hkeep.
    + destruct (fs_makedirs (files w) dir) as [[[]|e] s1] eqn:Hmk; [|done].
      destruct (fs_write s1 _ _) as [[[]|e] s2] eqn:Hwr; [|done].
      intros Hrun. destruct (IH _ _ Hrun) as [Hkeep Hall]. cbn [files] in Hkeep.
      assert (∀ q, fs_exists (files w) q = true → fs_exists s2 q = true) as Hstep.
      { intros q Hq.
        destruct (Hstay (files w) dir q Hq) as [_ H1]. rewrite Hmk in H1.
        destruct (Hstay s1 (Extract.md_path dir (Extract.get_tool_filename name)) q H1)
          as [H2 _].
        specialize (H2 (Extract.format_markdown name desc)). by rewrite Hwr in H2. }
      split; [intros q Hq; by apply Hkeep, Hstep|].
      intros t [->|Ht]%elem_of_cons; [|by apply Hall].
      apply Hkeep. by apply (Hwritten _ _ _ _ Hwr).
Qed.

Lemma categories_walk_creates bc keys n w n' w' :
  written_file_exists (T := T) → existing_paths_stay (T := T) →
  (∀ k, k ∈ keys → ∃ tools, Extract.by_category_get bc k = Ok tools) →
  Extract.categories_walk bc keys n w = (Ok n', w') →
  (∀ q, fs_exists (files w) q = true → fs_exists (files w') q = true)
  ∧ ∀ k t, k ∈ keys → filed bc k t →
      fs_exists (files w') (target (Extract.category_dir k) t) = true.
Proof.
  intros Hwritten Hstay. revert n w.
  induction keys as [|k keys IH]; intros n w Hkeys.
  - intros [= <- <-]. split; [done|]. intros k t Hk. by apply elem_of_nil in Hk.
  - destruct (Hkeys k) as [tools Hget]; [by left|].
    rewrite (categories_walk_cons _ _ _ tools) by done.
    destruct (Extract.tools_loop _ _ _ _) as [[n1|e] w1] eqn:Hrun1; [|done].
    intros Hrun.
    destruct (tools_loop_creates _ _ _ _ _ _ Hwritten Hstay Hrun1) as [Hkeep1 Hall1].
    destruct (IH n1 w1) as [Hkeep Hall]; [|done|].
    { intros k' Hk'. apply Hkeys. by right. }
    cbn [files] in Hkeep1. split; [intros q Hq; by apply Hkeep, Hkeep1|].
    intros k' t [->|Hk']%elem_of_cons Hf; [|by apply Hall].
    destruct Hf as (tools' & Hget' & Hin).
    rewrite Hget in Hget'. injection Hget' as <-.
    by apply Hkeep, Hall1.
Qed.

(** *** A run over sidecars that exist *)

Lemma tools_loop_skips dir tools n (w : world T) :
  (∀ t, t ∈ tools → fs_exists (files w) (target dir t) = true) →
  Extract.tools_loop dir tools n w =
    (Ok n, World (files w)
             (trace w ++ map (λ t : list N * list N,
                Printed (Extract.already_exists_line
                         (Extract.get_tool_filename t.1))) tools)).
Proof.
  revert w. induction tools as [|[name desc] tools IH]; intros w Hall.
  - simpl. rewrite app_nil_r. by destruct w.
  - rewrite tools_loop_cons. cbv zeta.
    assert (fs_exists (files w) (Extract.md_path dir (Extract.get_tool_filename name))
            = true) as -> by (apply (Hall (name, desc)); by left).
    rewrite IH; [|intros t Ht; apply Hall; by right].
    cbn [files trace map]. by rewrite <- app_assoc.
Qed.

Lemma categories_walk_skips bc keys n (w : world T) :
  (∀ k, k ∈ keys → ∃ tools, Extract.by_category_get bc k = Ok tools) →
  (∀ k t, k ∈ keys → filed bc k t →
     fs_exists (files w) (target (Extract.category_dir k) t) = true) →
  ∃ tr, Extract.categories_walk bc keys n w = (Ok n, World (files w) (trace w ++ tr))
    ∧ Forall is_print tr
    ∧ ∀ k t, k ∈ keys → filed bc k t →
        Printed (Extract.already_exists_line (Extract.get_tool_filename t.1)) ∈ tr.
Proof.
  revert w. induction keys as [|k keys IH]; intros w Hkeys Hall.
  - exists []. rewrite app_nil_r. split; [by destruct w|]. split; [done|].
    intros k t Hk. by apply elem_of_nil in Hk.
  - destruct (Hkeys k) as [tools Hget]; [by left|].
    rewrite (categories_walk_cons _ _ _ tools) by done.
    rewrite tools_loop_skips.
    2:{ intros t Ht. cbn [files]. apply (Hall k t); [by left|]. by exists tools. }
    cbn [files trace].
    match goal with |- context [Extract.categories_walk bc keys n ?v] =>
      destruct (IH v) as (tr & Hrun & Hpr & Hin) end.
    { intros k' Hk'. apply Hkeys. by right. }
    { intros k' t Hk' Hf. cbn [files]. apply (Hall k' t); [by right|done]. }
    rewrite Hrun. cbn [files trace].
    eexists. rewrite <- !app_assoc. split; [reflexivity|]. split.
    + apply Forall_app. split; [by repeat constructor|].
      apply Forall_app. split; [|done].
      apply Forall_forall. by intros e (t & -> & _)%list_elem_of_fmap.
    + intros k' t [->|Hk']%elem_of_cons Hf.
      * destruct Hf as (tools' & Hget' & Hin').
        rewrite Hget in Hget'. injection Hget' as <-.
        apply elem_of_app. right. apply elem_of_app. left.
        apply list_elem_of_fmap. by exists t.
      * apply elem_of_app. right. apply elem_of_app. right. by apply (Hin k' t).
Qed.


(** *** What a run does to the file system *)

Lemma tools_loop_run (all : list (list N * list N)) (category : list N)
    (tools : list (list N * list N)) (n : nat) (w : world T) :
  (∀ t, t ∈ tools → t ∈ all ∧ Extract.get_tool_category t.1 = Ok category) →
  ∃ r tr s',
    Extract.tools_loop (Extract.category_dir category) tools n w
      = (r, World s' (trace w ++ tr))
    ∧ rtc (extractor_step all) (files w) s'
    ∧ Forall (extractor_event all) tr
    ∧ match r with
      | Ok n' => n' = n + write_count tr
      | Raise _ => True
      end.
Proof.
  revert n w. induction tools as [|[name desc] tools IH]; intros n w Hall.
  - exists (Ok n), [], (files w). rewrite app_nil_r. simpl. unfold ret.
    split; [by destruct w|]. split; [done|]. split; [done|].
    change (write_count []) with 0. lia.
  - rewrite tools_loop_cons. cbv zeta.
    destruct (Hall (name, desc)) as [Hin Hcat]; [by left|]. cbn [fst] in Hcat.
    assert (∀ t, t ∈ tools → t ∈ all ∧ Extract.get_tool_category t.1 = Ok category)
      as Hall' by (intros t Ht; apply Hall; by right).
    destruct (fs_exists (files w) _) eqn:Hex.
    + match goal with |- context [Extract.tools_loop _ tools n ?v] =>
        destruct (IH n v Hall') as (r & tr & s' & Hrun & Hsteps & Htr & Hr) end.
      cbn [files trace] in *. rewrite Hrun.
      exists r, (Printed (Extract.already_exists_line (Extract.get_tool_filename name))
                 :: tr), s'.
      rewrite <- app_assoc. split; [done|]. split; [done|].
      split; [apply Forall_cons_2; [by left|done]|].
      destruct r; [|done].
      by change (write_count (Printed ?l :: tr)) with (write_count tr).
    + assert (extractor_step all (files w) (generate (files w) category (name, desc)))
        as Hstep by (by exists (name, desc), category).
      assert (extractor_event all (MakeDirs (Extract.category_dir category))) as He1.
      { right; right. exists (name, desc), category. split; [done|]. split; [done|].
        by left. }
      assert (extractor_event all
                (OpenWrite (target (Extract.category_dir category) (name, desc))))
        as He2.
      { right; right. exists (name, desc), category. split; [done|]. split; [done|].
        by right. }
      unfold generate, target in Hstep, He2. cbn [fst snd] in Hstep, He2.
      destruct (fs_makedirs (files w) _) as [[[]|e] s1] eqn:Hmk.
      2:{ exists (Raise e), [MakeDirs (Extract.category_dir category)], s1.
          split; [done|]. split; [by apply rtc_once|]. split; [|done].
          by apply Forall_cons_2. }
      destruct (fs_write s1 _ _) as [[[]|e] s2] eqn:Hwr; cbn [snd] in Hstep.
      2:{ eexists (Raise e), [_; _], s2.
          split; [done|]. split; [by apply rtc_once|].
          split; [by repeat apply Forall_cons_2|done]. }
      match goal with |- context [Extract.tools_loop _ tools ?m ?v] =>
        destruct (IH m v Hall') as (r & tr & s' & Hrun & Hsteps & Htr & Hr) end.
      cbn [files trace] in *. rewrite Hrun.
      eexists r, (_ :: _ :: _ :: tr), s'.
      rewrite <- app_assoc. split; [done|].
      split; [by eapply rtc_l|].
      split; [repeat apply Forall_cons_2; try done; by left|].
      destruct r; [|done].
      change (write_count (MakeDirs ?d :: OpenWrite ?p :: Printed ?l :: tr))
        with (S (write_count tr)).
      lia.
Qed.

Lemma categories_walk_run (all : list (list N * list N)) bc (keys : list (list N))
    (n : nat) (w : world T) :
  (∀ k, k ∈ keys → ∃ tools, Extract.by_category_get bc k = Ok tools) →
  (∀ k t, filed bc k t → t ∈ all ∧ Extract.get_tool_category t.1 = Ok k) →
  ∃ r tr s',
    Extract.categories_walk bc keys n w = (r, World s' (trace w ++ tr))
    ∧ rtc (extractor_step all) (files w) s'
    ∧ Forall (extractor_event all) tr
    ∧ match r with
      | Ok n' => n' = n + write_count tr
      | Raise _ => True
      end.
Proof.
  intros Hkeys Hfiled. revert n w Hkeys.
  induction keys as [|k keys IH]; intros n w Hkeys.
  - exists (Ok n), [], (files w). rewrite app_nil_r. simpl. unfold ret.
    split; [by destruct w|]. split; [done|]. split; [done|].
    change (write_count []) with 0. lia.
  - destruct (Hkeys k) as [tools Hget]; [by left|].
    rewrite (categories_walk_cons _ _ _ tools) by done.
    match goal with |- context [Extract.tools_loop _ tools n ?v] =>
      destruct (tools_loop_run all k tools n v)
        as (r1 & tr1 & s1 & Hrun1 & Hsteps1 & Htr1 & Hr1) end.
    { intros t Ht. apply Hfiled. by exists tools. }
    rewrite Hrun1. cbn [files trace] in *. destruct r1 as [n1|e].
    + match goal with |- context [Extract.categories_walk bc keys n1 ?v] =>
        destruct (IH n1 v) as (r & tr & s' & Hrun & Hsteps & Htr & Hr) end.
      { intros k' Hk'. apply Hkeys. by right. }
      cbn [files trace] in *. rewrite Hrun.
      eexists r, (_ :: tr1 ++ tr), s'. rewrite <- !app_assoc.
      split; [done|]. split; [by etrans|].
      split; [apply Forall_cons_2; [by left|by apply Forall_app]|].
      destruct r; [|done].
      change (write_count (Printed ?l :: tr1 ++ tr)) with (write_count (tr1 ++ tr)).
      rewrite write_count_app. lia.
    + eexists (Raise e), (_ :: tr1), s1. rewrite <- !app_assoc.
      split; [done|]. split; [done|].
      split; [apply Forall_cons_2; [by left|done]|done].
Qed.

Lemma main_run (fs : T) :
  ∃ status tr s',
    run_script Extract.main fs = (World s' tr, status)
    ∧ rtc (extractor_step (tools_found fs)) fs s'
    ∧ Forall (extractor_event (tools_found fs)) tr
    ∧ (fs_exists fs Extract.index_path = true → status = 0 →
       ∃ before keys,
         tr = before
              ++ summary_lines_printed (write_count tr) (tools_found fs) keys).
Proof.
  unfold run_script, tools_found.
  destruct (fs_exists fs Extract.index_path) eqn:Hex.
  2:{ rewrite main_without_index by done. do 3 eexists. split; [done|].
      split; [done|]. split; [|done]. repeat apply Forall_cons_2; try done; by left. }
  destruct (fs_read fs Extract.index_path) as [content|e] eqn:Hidx.
  2:{ rewrite (main_unreadable_index fs e) by done. do 3 eexists. split; [done|].
      split; [done|]. split; [|done].
      repeat apply Forall_cons_2; try done; [by left|by right; left]. }
  destruct (group_loop_files (Extract.parse_tools content) []) as (bc & Hbc & _ & _).
  assert (Hkeys : ∀ k, k ∈ sorted (map fst bc) →
            ∃ tools, Extract.by_category_get bc k = Ok tools).
  { intros k Hk. apply key_get. by apply sorted_elem. }
  rewrite (main_with_index fs content bc) by done.
  destruct (categories_walk_run (Extract.parse_tools content) bc (sorted (map fst bc)) 0
              (World fs (opening_trace (Extract.parse_tools content))) Hkeys)
    as (r & tr & s' & Hrun & Hsteps & Htr & Hr).
  { intros k t Hf. destruct (group_loop_sound _ _ _ _ _ Hbc Hf) as [Hnil|H1]; [|done].
    by apply not_filed_nil in Hnil. }
  rewrite Hrun. cbn [files trace] in *.
  assert (Forall (extractor_event (Extract.parse_tools content))
            (opening_trace (Extract.parse_tools content))) as Hopen.
  { unfold opening_trace. repeat apply Forall_cons_2; try done;
      [by left|by right; left|by left]. }
  destruct r as [n|e].
  - do 3 eexists. split; [done|]. split; [done|]. split.
    + repeat apply Forall_app_2; try done.
      unfold summary_lines_printed. repeat apply Forall_cons_2; try done; by left.
    + intros _ _. exists (opening_trace (Extract.parse_tools content) ++ tr),
        (sorted (map fst bc)).
      rewrite !write_count_app.
      change (write_count (opening_trace _)) with 0.
      change (write_count (summary_lines_printed _ _ _)) with 0.
      rewrite Nat.add_0_r. cbn [Nat.add] in *. by subst n.
  - do 3 eexists. split; [done|]. split; [done|]. split; [by apply Forall_app_2|].
    by intros _ [=].
Qed.

(** X10: whatever the file system answers, all a run of the extractor does
    to it is generate sidecars of tools registered in the aggregation source,
    one after the other, each at a sidecar path that does not exist at that
    moment; and every event of the run is a printed line, the aggregation
    source opened for reading, the category directory of a registered tool
    made, or the sidecar path of a registered tool opened for writing. *)
Theorem extractor_adds_only_sidecars (fs : T) :
  let after := (run_script Extract.main fs).1 in
  rtc (extractor_step (tools_found fs)) fs (files after)
  ∧ ∀ e, e ∈ trace after → extractor_event (tools_found fs) e.
Proof.
  intros after. subst after.
  destruct (main_run fs) as (status & tr & s' & -> & Hsteps & Htr & _).
  cbn [fst files trace]. split; [done|]. by apply Forall_forall.
Qed.

(** X11: when the aggregation source is there and the run ends normally,
    the three summary lines are the last things printed, and the number in
    the line [Generated n documentation files] is the number of files the
    run opened for writing. *)
Theorem extractor_generated_count (fs : T) :
  let after := run_script Extract.main fs in
  fs_exists fs Extract.index_path = true →
  after.2 = 0 →
  ∃ keys, summary_lines_printed (write_count (trace after.1)) (tools_found fs) keys
          `suffix_of` trace after.1.
Proof.
  intros after Hex. subst after.
  destruct (main_run fs) as (status & tr & s' & -> & _ & _ & Hsum).
  cbn [fst snd trace]. intros ->.
  destruct (Hsum Hex eq_refl) as (before & keys & Htr).
  exists keys, before. exact Htr.
Qed.
End ExtractorRun.

(** ** The injector *)

Lemma contains_app_r (p a b : list N) :
  contains p b = true → contains p (a ++ b) = true.
Proof.
  intros H. induction a as [|c a IH]; [done|].
  simpl. rewrite IH. apply orb_true_r.
Qed.

Lemma contains_app_l (p b : list N) : contains p (p ++ b) = true.
Proof. destruct p; simpl; [by destruct b|]. by rewrite N.eqb_refl, startswith_app. Qed.

Lemma jsdoc_template_marker tool_title what_it_does why_use parameters returns
    example md_file :
  ∃ body, Inject.jsdoc_template tool_title what_it_does why_use parameters returns
            example md_file = lit "/**" ++ body.
Proof.
  exists (drop 3 (Inject.jsdoc_template tool_title what_it_does why_use parameters
                    returns example md_file)).
  reflexivity.
Qed.

Lemma jsdoc_exists_splice (content : list N) (start_pos : nat) (body : list N) :
  start_pos ≤ 497 →
  Inject.jsdoc_exists (Inject.splice content start_pos (lit "/**" ++ body)) = true.
Proof.
  intros Hpos. unfold Inject.jsdoc_exists, Inject.splice.
  rewrite take_app. apply contains_app_r.
  assert (length (take start_pos content) ≤ 497) as Hlen
    by (rewrite length_take; lia).
  rewrite <- app_assoc.
  destruct (500 - length (take start_pos content)) as [|[|[|n]]] eqn:Hn;
    try (exfalso; lia).
  rewrite (take_app (lit "/**")).
  rewrite (take_ge (lit "/**")) by (vm_compute; lia).
  apply contains_app_l.
Qed.

(** A decidable goal with no variables, settled by evaluation. *)
Ltac by_decide := apply (bool_decide_unpack _); vm_compute; exact I.

Ltac forall_events :=
  repeat first
    [ apply Forall_nil_2
    | apply Forall_cons_2; [first [by left | by right; left | by right; right]|] ].

Lemma md_fields_nonempty (md : list N) : Inject.md_fields md ≠ ∅.
Proof. unfold Inject.md_fields. apply insert_non_empty. Qed.

Lemma app_sep_inj (x : N) (a b c d : list N) :
  x ∉ a → x ∉ b → a ++ x :: c = b ++ x :: d → a = b.
Proof.
  revert b. induction a as [|y a IH]; intros [|z b] Ha Hb Heq; simpl in *.
  - done.
  - injection Heq as <- _. exfalso. apply Hb. by left.
  - injection Heq as -> _. exfalso. apply Ha. by left.
  - injection Heq as -> Heq. f_equal.
    apply not_elem_of_cons in Ha as [_ Ha].
    apply not_elem_of_cons in Hb as [_ Hb]. by apply IH.
Qed.

Lemma child_name_inj (dir dir' n n' : list N) :
  Path.slash ∉ n → Path.slash ∉ n' →
  Path.child dir n = Path.child dir' n' → n = n'.
Proof.
  intros Hn Hn' Heq. unfold Path.child in Heq.
  apply (f_equal (@rev N)) in Heq. rewrite !rev_app_distr in Heq. simpl in Heq.
  rewrite <- !app_assoc in Heq. simpl in Heq.
  apply app_sep_inj in Heq.
  - apply (f_equal (@rev N)) in Heq. by rewrite !rev_involutive in Heq.
  - by rewrite list_elem_of_In, <- in_rev, <- list_elem_of_In.
  - by rewrite list_elem_of_In, <- in_rev, <- list_elem_of_In.
Qed.

Lemma multi_export_name (n : list N) :
  n ∈ Inject.multi_export_files → (Path.slash ∉ n) ∧ last n = Some 115%N.
Proof.
  unfold Inject.multi_export_files.
  rewrite !elem_of_cons, elem_of_nil.
  intros [->|[->|[->|[]]]]; (split; [by_decide|done]).
Qed.

Lemma harmless_not_opens (e : event) (dir name : list N) :
  harmless e → name ∈ Inject.multi_export_files →
  ¬ opens (Path.child dir name) e.
Proof.
  intros [Hp|(dir' & n & Hn & Hnot & ->)] Hname [Ho|Ho].
  - by subst e.
  - by subst e.
  - injection Ho as Ho. apply multi_export_name in Hname as Hs.
    apply child_name_inj in Ho; [|done|tauto]. by subst.
  - done.
Qed.

Lemma md_name_harmless (has : list N → bool) (dir n : list N) :
  Path.slash ∉ n →
  (Path.slash ∉ Inject.md_name has dir n)
  ∧ (Inject.md_name has dir n ∉ Inject.multi_export_files).
Proof.
  intros Hn.
  assert ((Path.slash ∉ Path.with_suffix n (lit ".md"))
          ∧ last (Path.with_suffix n (lit ".md")) = Some 100%N) as [Hs Hl].
  { unfold Path.with_suffix, Path.stem. split.
    - rewrite not_elem_of_app. split; [|by_decide].
      intros H. apply Hn.
      rewrite <- (take_drop (length n - length (Path.suffix n)) n).
      apply elem_of_app. by left.
    - change (lit ".md") with ([46%N; 109%N] ++ [100%N]).
      by rewrite app_assoc, last_snoc. }
  assert (∀ m, last m = Some 100%N → m ∉ Inject.multi_export_files) as Hd.
  { intros m Hm Hin. apply multi_export_name in Hin as [_ Hin]. congruence. }
  unfold Inject.md_name. repeat case_match; (split; [|apply Hd]); try done;
    by_decide.
Qed.

Lemma tool_names_cons (n : list N) (names : list (list N)) :
  tool_names (n :: names) =
    if bool_decide (n ∈ Inject.multi_export_files) then tool_names names
    else n :: tool_names names.
Proof. unfold tool_names. simpl. by case_bool_decide. Qed.

Section InjectorRun.
Context {T : Type} `{FileSystem T}.
Variable unicode_alnum : N → bool.

Lemma glob_ts_names (fs : T) (dir : list N) (names : list (list N)) (n : list N) :
  Path.glob_ts fs dir = Ok names → n ∈ names → Path.slash ∉ n.
Proof.
  unfold Path.glob_ts. destruct (fs_listdir fs dir) as [entries|e]; [|done].
  intros [= <-]. rewrite sorted_elem, list_elem_of_In, List.filter_In.
  intros [_ [Hs _]%andb_true_iff].
  apply negb_true_iff in Hs. by apply bool_decide_eq_false in Hs.
Qed.

(** All [add_jsdoc_to_file] can do, by what reading the two files gives. *)
Lemma add_jsdoc_to_file_run (file_path md_path : list N) (w : world T) :
  Inject.add_jsdoc_to_file unicode_alnum file_path md_path w =
    match fs_read (files w) file_path with
    | Raise e =>
        (Ok false,
         World (files w)
           (trace w ++ [OpenRead file_path;
                        Printed (could_not_read_line file_path e)]))
    | Ok content =>
        if Inject.jsdoc_exists content then
          (Ok false,
           World (files w)
             (trace w ++ [OpenRead file_path; Printed (jsdoc_exists_line file_path)]))
        else
          match fs_read (files w) md_path with
          | Ok _ =>
              (Raise (TypeError missing_argument),
               World (files w) (trace w ++ [OpenRead file_path; OpenRead md_path]))
          | Raise (FileNotFoundError _) =>
              (Ok false,
               World (files w)
                 (trace w ++ [OpenRead file_path; OpenRead md_path;
                              Printed (no_markdown_line file_path)]))
          | Raise e =>
              (Raise e,
               World (files w) (trace w ++ [OpenRead file_path; OpenRead md_path]))
          end
    end.
Proof.
  unfold Inject.add_jsdoc_to_file.
  unfold bind at 1. unfold try_except, bind at 1, read_file, bind at 1, emit, load.
  cbn [files trace].
  destruct (fs_read (files w) file_path) as [content|e].
  2:{ unfold bind, print, emit, ret. cbn [files trace].
      by rewrite <- !app_assoc. }
  unfold ret at 1. destruct (Inject.jsdoc_exists content).
  { unfold bind, print, emit, ret. cbn [files trace]. by rewrite <- !app_assoc. }
  unfold bind at 1. unfold Inject.load_md_content, read_file, bind at 1, emit, load.
  cbn [files trace].
  destruct (fs_read (files w) md_path) as [md|e].
  - rewrite bool_decide_false by apply md_fields_nonempty.
    unfold bind at 1. unfold lift. cbn [Inject.call_find_function_export].
    by rewrite <- !app_assoc.
  - destruct e; try by rewrite <- !app_assoc.
    rewrite bool_decide_true by done.
    unfold bind, print, emit, ret. cbn [files trace]. by rewrite <- !app_assoc.
Qed.

Lemma add_jsdoc_outcome (file_path md_path : list N) (w : world T) :
  ∃ r tr,
    Inject.add_jsdoc_to_file unicode_alnum file_path md_path w =
      (r, World (files w) (trace w ++ tr))
    ∧ Forall (λ e, is_print e ∨ e = OpenRead file_path ∨ e = OpenRead md_path) tr
    ∧ match r with
      | Ok updated => updated = false ∧ documentable (files w) file_path md_path = false
      | Raise _ => documentable (files w) file_path md_path = true
      end.
Proof.
  rewrite add_jsdoc_to_file_run. unfold documentable.
  destruct (fs_read (files w) file_path) as [content|e].
  2:{ do 2 eexists. split; [done|]. split; [forall_events|done]. }
  destruct (Inject.jsdoc_exists content).
  { do 2 eexists. split; [done|]. split; [forall_events|done]. }
  destruct (fs_read (files w) md_path) as [md|e].
  { do 2 eexists. split; [done|]. split; [forall_events|done]. }
  destruct e; do 2 eexists; (split; [done|]); (split; [forall_events|done]).
Qed.

Lemma files_loop_run (dir : list N) (names : list (list N)) (counts : nat * nat)
    (w : world T) :
  Forall (λ n, Path.slash ∉ n) names →
  ∃ r tr,
    Inject.files_loop unicode_alnum dir names counts w =
      (r, World (files w) (trace w ++ tr))
    ∧ Forall harmless tr
    ∧ match r with
      | Ok c =>
          c = (counts.1 + length (tool_names names), counts.2)
          ∧ existsb (documentable_in (files w) dir) names = false
      | Raise _ => existsb (documentable_in (files w) dir) names = true
      end.
Proof.
  intros Hnames. revert counts w.
  induction Hnames as [|n names Hn Hnames IH]; intros counts w.
  - exists (Ok counts), []. rewrite app_nil_r. split; [by destruct w|].
    split; [done|]. split; [|done]. destruct counts as [a b]. simpl. f_equal. lia.
  - cbn [Inject.files_loop existsb]. rewrite tool_names_cons.
    unfold documentable_in at 1 3.
    case_bool_decide as Hmulti; cbn [negb andb orb].
    + unfold bind at 1. unfold print, emit.
      match goal with |- context [Inject.files_loop _ _ _ ?c ?v] =>
        destruct (IH c v) as (r & tr & Hrun & Htr & Hr) end.
      rewrite Hrun. cbn [files trace] in *. do 2 eexists.
      rewrite <- app_assoc. split; [done|].
      split; [apply Forall_cons_2; [by left|done]|done].
    + unfold bind at 1. unfold Inject.md_file_for.
      destruct (fs_path_exists (files w) _) as [present|e].
      2:{ exists (Raise e), []. rewrite app_nil_r. split; [by destruct w|done]. }
      destruct (md_name_harmless (λ _, present) dir n Hn) as [Hmd1 Hmd2].
      unfold bind at 1.
      match goal with |- context [Inject.add_jsdoc_to_file _ ?f ?m ?v] =>
        destruct (add_jsdoc_outcome f m v) as (r1 & tr1 & Hrun1 & Htr1 & Hr1) end.
      rewrite Hrun1.
      assert (Forall harmless tr1) as Hh1.
      { eapply Forall_impl; [exact Htr1|].
        intros e [He|[-> | ->]]; [by left | right; by exists dir, n |].
        right. eexists dir, _. split; [exact Hmd1|]. split; [exact Hmd2|done]. }
      destruct r1 as [updated|e].
      * destruct Hr1 as [-> ->]. cbn [orb].
        match goal with |- context [Inject.files_loop _ _ _ ?c ?v] =>
          destruct (IH c v) as (r & tr & Hrun & Htr & Hr) end.
        rewrite Hrun. cbn [files trace fst snd] in *. do 2 eexists.
        rewrite <- app_assoc. split; [done|]. split; [by apply Forall_app|].
        destruct r as [c|e]; [|done].
        destruct Hr as [-> Hall]. split; [|done]. simpl. f_equal. lia.
      * rewrite Hr1. by do 2 eexists.
Qed.

Lemma tool_file_count_cons (fs : T) (c : list N) (cats : list (list N)) :
  tool_file_count fs (c :: cats) =
    length (tool_names (listed fs (lit "src/tools/" ++ c)))
    + tool_file_count fs cats.
Proof. unfold tool_file_count. simpl. by rewrite length_app. Qed.

Lemma categories_loop_run (cats : list (list N)) (counts : nat * nat) (w : world T) :
  ∃ r tr,
    Inject.categories_loop unicode_alnum cats counts w =
      (r, World (files w) (trace w ++ tr))
    ∧ Forall harmless tr
    ∧ match r with
      | Ok c =>
          c = (counts.1 + tool_file_count (files w) cats, counts.2)
          ∧ Forall (λ cat, halts_in (files w) cat = false) cats
      | Raise _ => Exists (λ cat, halts_in (files w) cat = true) cats
      end.
Proof.
  revert counts w. induction cats as [|cat cats IH]; intros counts w.
  - exists (Ok counts), []. rewrite app_nil_r. split; [by destruct w|].
    split; [done|]. split; [|done]. destruct counts as [a b].
    unfold tool_file_count. simpl. f_equal. lia.
  - cbn [Inject.categories_loop]. rewrite tool_file_count_cons.
    unfold bind at 1. unfold listed.
    destruct (Path.glob_ts (files w) (lit "src/tools/" ++ cat)) as [names|e] eqn:Hglob.
    2:{ exists (Raise e), []. rewrite app_nil_r. split; [by destruct w|].
        split; [done|]. apply Exists_cons_hd. unfold halts_in. by rewrite Hglob. }
    unfold bind at 1. unfold print, emit.
    unfold bind at 1.
    match goal with |- context [Inject.files_loop _ ?d ?ns ?c ?v] =>
      destruct (files_loop_run d ns c v) as (r1 & tr1 & Hrun1 & Htr1 & Hr1) end.
    { apply Forall_forall. intros n Hn. by eapply glob_ts_names. }
    rewrite Hrun1. cbn [files trace] in *.
    assert (halts_in (files w) cat
            = existsb (documentable_in (files w) (lit "src/tools/" ++ cat)) names)
      as Hcat by (unfold halts_in; by rewrite Hglob).
    destruct r1 as [counts'|e].
    + destruct Hr1 as [-> Hall1].
      match goal with |- context [Inject.categories_loop _ _ ?c ?v] =>
        destruct (IH c v) as (r & tr & Hrun & Htr & Hr) end.
      rewrite Hrun. cbn [files trace fst snd] in *. do 2 eexists.
      rewrite <- !app_assoc. split; [done|].
      split; [apply Forall_cons_2; [by left|by apply Forall_app]|].
      destruct r as [c|e].
      * destruct Hr as [-> Hall]. split; [f_equal; lia|].
        constructor; [congruence|done].
      * by apply Exists_cons_tl.
    + do 2 eexists. rewrite <- !app_assoc. split; [done|].
      split; [apply Forall_cons_2; [by left|done]|].
      apply Exists_cons_hd. congruence.
Qed.

Lemma main_run_injector (fs : T) :
  ∃ status tr,
    run_script (Inject.main unicode_alnum) fs = (World fs tr, status)
    ∧ Forall harmless tr
    ∧ ((status = 0 ∧ ¬ halts_somewhere fs
        ∧ last tr = Some (Printed ([Ch.nl; Ch.sparkles] ++ lit " Updated 0/"
                                   ++ str_of_nat (tool_file_count fs Inject.categories)
                                   ++ lit " tool files")))
       ∨ (status = 1 ∧ halts_somewhere fs)).
Proof.
  unfold run_script, Inject.main. unfold bind at 1. unfold print at 1, emit.
  cbn [files trace app]. unfold bind at 1.
  match goal with |- context [Inject.categories_loop _ ?cs ?c ?v] =>
    destruct (categories_loop_run cs c v) as (r & tr & Hrun & Htr & Hr) end.
  rewrite Hrun. cbn [files trace fst snd] in *. destruct r as [counts|e].
  - unfold print, emit. cbn [files trace]. do 2 eexists. split; [done|].
    split.
    { apply Forall_cons_2; [by left|]. apply Forall_app. split; [done|].
      apply Forall_cons_2; [by left|done]. }
    left. destruct Hr as [-> Hall]. cbn [fst snd]. split; [done|]. split.
    + intros (cat & Hcat & Hhalt). rewrite Forall_forall in Hall.
      specialize (Hall cat Hcat). congruence.
    + by rewrite app_comm_cons, last_snoc.
  - do 2 eexists. split; [done|].
    split; [apply Forall_cons_2; [by left|done]|].
    right. split; [done|].
    apply Exists_exists in Hr as (cat & Hcat & Hr). by exists cat.
Qed.

(** C10: a file named [cache-management.ts], [persistence-tools.ts] or
    [index.ts] is passed over by the loop with the multi-export line and
    nothing else; in a whole run no such file, in whatever directory, is
    ever opened for reading or writing, and reading it after the run gives
    what reading it before gave. *)
Theorem multi_export_files_untouched (fs : T) (dir name : list N) :
  name ∈ Inject.multi_export_files →
  (∀ rest counts (w : world T),
     Inject.files_loop unicode_alnum dir (name :: rest) counts w =
     Inject.files_loop unicode_alnum dir rest counts
       (World (files w) (trace w ++ [Printed (Inject.multi_export_line name)])))
  ∧ (let after := (run_script (Inject.main unicode_alnum) fs).1 in
     fs_read (files after) (Path.child dir name) = fs_read fs (Path.child dir name)
     ∧ ∀ e, e ∈ trace after → ¬ opens (Path.child dir name) e).
Proof.
  intros Hname. split.
  - intros rest counts w. cbn [Inject.files_loop].
    by rewrite bool_decide_true by done.
  - destruct (main_run_injector fs) as (status & tr & Hrun & Htr & _).
    rewrite Hrun. cbn [fst files trace]. split; [done|].
    intros e He. apply harmless_not_opens; [|done].
    rewrite Forall_forall in Htr. by apply Htr.
Qed.


(** X13: the two soft failures of [add_jsdoc_to_file].  A source file that
    cannot be read, whatever the exception, is reported with the text of
    the exception, and a source file the reading of whose sidecar raises
    [FileNotFoundError] is reported as having no markdown; in both cases
    the function returns [False], raises nothing and changes no file. *)
Theorem add_jsdoc_soft_failures (file_path md_path : list N) (w : world T) :
  (∀ e, fs_read (files w) file_path = Raise e →
     Inject.add_jsdoc_to_file unicode_alnum file_path md_path w =
       (Ok false,
        World (files w)
          (trace w ++
           [OpenRead file_path;
            Printed (lit "   " ++ [Ch.cross] ++ lit " Could not read " ++ file_path
                     ++ lit ": " ++ exn_message e)])))
  ∧ (∀ content msg,
       fs_read (files w) file_path = Ok content →
       Inject.jsdoc_exists content = false →
       fs_read (files w) md_path = Raise (FileNotFoundError msg) →
       Inject.add_jsdoc_to_file unicode_alnum file_path md_path w =
         (Ok false,
          World (files w)
            (trace w ++
             [OpenRead file_path; OpenRead md_path;
              Printed (lit "   " ++ [Ch.warning; Ch.vs16] ++ lit "  "
                       ++ Path.name file_path ++ lit " (no markdown found)")]))).
Proof.
  split.
  - intros e Hfile. rewrite add_jsdoc_to_file_run. by rewrite Hfile.
  - intros content msg Hfile Hmark Hmd. rewrite add_jsdoc_to_file_run.
    by rewrite Hfile, Hmark, Hmd.
Qed.

(** X14: the exit status of a run of the injector is 1 exactly when it halts
    at some category: the listing of the directory raises, or the check
    that the sidecar of one of its files exists raises, or one of its files
    can be read, has no comment marker within its first 500 characters, and
    reading its sidecar does not raise [FileNotFoundError].  Otherwise the
    status is 0. *)
Theorem injector_fails_iff_documentable (fs : T) :
  let status := (run_script (Inject.main unicode_alnum) fs).2 in
  (status = 1 ↔ halts_somewhere fs)
  ∧ (status = 0 ↔ ¬ halts_somewhere fs).
Proof.
  intros status. subst status.
  destruct (main_run_injector fs)
    as (status & tr & -> & _ & [(-> & Hno & _)|(-> & Hyes)]); cbn [snd].
  - split; split; first [done | intros H0; by apply Hno in H0].
  - split; split; first [done | intros H0; by apply H0 in Hyes].
Qed.

(** X15: a run of the injector that ends normally has updated nothing: its
    last line reports 0 updated files out of the number of listed entries
    that are not multi-export files, and the file system is as it was. *)
Theorem injector_reports_zero_updates (fs : T) :
  let after := run_script (Inject.main unicode_alnum) fs in
  after.2 = 0 →
  files after.1 = fs
  ∧ last (trace after.1) =
      Some (Printed ([Ch.nl; Ch.sparkles] ++ lit " Updated 0/"
                     ++ str_of_nat (tool_file_count fs Inject.categories)
                     ++ lit " tool files")).
Proof.
  intros after. subst after.
  destruct (main_run_injector fs)
    as (status & tr & -> & _ & [(-> & _ & Hlast)|(-> & _)]); cbn [fst snd];
    [|done].
  intros _. by cbn [files trace].
Qed.

(** X16: whatever the file system, the injector changes no file, opens no file
    for writing and makes no directory: all it does is print and open files
    for reading. *)
Theorem injector_never_writes (fs : T) :
  let after := (run_script (Inject.main unicode_alnum) fs).1 in
  files after = fs
  ∧ ∀ e, e ∈ trace after → is_print e ∨ ∃ path, e = OpenRead path.
Proof.
  intros after. subst after.
  destruct (main_run_injector fs) as (status & tr & -> & Htr & _).
  cbn [fst files trace]. split; [done|].
  intros e He. rewrite Forall_forall in Htr.
  destruct (Htr e He) as [Hp|(dir & n & _ & _ & ->)]; [by left|right; by eexists].
Qed.

(** X23: a file into which a comment block was spliced at an offset of at
    most 497 characters carries the marker within its first 500 characters,
    and [add_jsdoc_to_file] then leaves it alone: it reads the file, prints
    that the comment already exists, returns [False] and writes nothing. *)
Theorem rerun_skips_spliced_file (file_path md_path content : list N)
    (start_pos : nat)
    (tool_title what_it_does why_use parameters returns example md_file : list N)
    (w : world T) :
  let new_content :=
    Inject.splice content start_pos
      (Inject.jsdoc_template tool_title what_it_does why_use parameters returns
         example md_file) in
  start_pos ≤ 497 →
  fs_read (files w) file_path = Ok new_content →
  Inject.jsdoc_exists new_content = true
  ∧ Inject.add_jsdoc_to_file unicode_alnum file_path md_path w =
      (Ok false,
       World (files w)
         (trace w ++ [OpenRead file_path; Printed (jsdoc_exists_line file_path)])).
Proof.
  intros new_content Hpos Hfile.
  assert (Inject.jsdoc_exists new_content = true) as Hmark.
  { subst new_content.
    destruct (jsdoc_template_marker tool_title what_it_does why_use parameters
                returns example md_file) as [body ->].
    by apply jsdoc_exists_splice. }
  split; [done|]. rewrite add_jsdoc_to_file_run. by rewrite Hfile, Hmark.
Qed.

End InjectorRun.

(** ** The sidecar loader *)

Lemma startswith_app_ge (p a b : list N) :
  length p ≤ length a → startswith p (a ++ b) = startswith p a.
Proof.
  revert a. induction p as [|c p IH]; intros [|d a] Hlen; simpl in *; try done.
  - lia.
  - rewrite IH by lia. done.
Qed.

Lemma startswith_head (p : list N) (c d : N) (s : list N) :
  c ≠ d → startswith (d :: p) (c :: s) = false.
Proof. intros Hne. simpl. by destruct (N.eqb_spec d c) as [->|]. Qed.

Section SearchFacts.
Context {A : Type}.

Lemma search_from_first (m : bool → list N → option A) (before s : list N) (a : A)
    (bol : bool) (pos : nat) :
  (∀ b i, i < length before → m b (drop i before ++ s) = None) →
  (∀ b, m b s = Some a) →
  Re.search_from m bol pos (before ++ s) = Some (pos + length before, a).
Proof.
  intros Hmiss Hhit. revert bol pos.
  induction before as [|c before IH]; intros bol pos.
  - simpl. destruct s; simpl; rewrite Hhit; f_equal; f_equal; lia.
  - assert (m bol (c :: before ++ s) = None) as H0
      by (apply (Hmiss bol 0); simpl; lia).
    simpl. rewrite H0.
    rewrite IH.
    + f_equal. f_equal. simpl. lia.
    + intros b i Hi. apply (Hmiss b (S i)). simpl. lia.
Qed.

(** A lazy star stops at the first place where the rest of the pattern
    succeeds. *)
Lemma lazy_from_first (cls : N → bool) (k : list N → list N → option A)
    (acc run s : list N) (r : A) :
  all_of cls run →
  (∀ j, j < length run → k (acc ++ take j run) (drop j run ++ s) = None) →
  k (acc ++ run) s = Some r →
  Re.lazy_from cls k acc (run ++ s) = Some r.
Proof.
  intros Hrun. revert acc.
  induction Hrun as [|c run Hc Hrun IH]; intros acc Hmiss Hhit.
  - rewrite app_nil_r in Hhit. simpl. destruct s; simpl; by rewrite Hhit.
  - assert (k acc (c :: run ++ s) = None) as H0.
    { specialize (Hmiss 0). simpl in Hmiss. rewrite app_nil_r in Hmiss.
      apply Hmiss. lia. }
    simpl. rewrite H0, Hc. apply IH.
    + intros j Hj. specialize (Hmiss (S j)). simpl in Hmiss.
      rewrite <- app_assoc. apply Hmiss. lia.
    + by rewrite <- app_assoc.
Qed.
End SearchFacts.

Lemma all_of_any (s : list N) : all_of Re.any s.
Proof. by apply Forall_forall. Qed.

Lemma tight_line (b : list N) : Ch.nl ∉ b → tight b.
Proof.
  induction b as [|c b IH]; [done|].
  intros [Hc Hb]%not_elem_of_cons. simpl. split; [done|]. by apply IH.
Qed.

Lemma tight_lines (b rest : list N) :
  Ch.nl ∉ b → tight rest →
  match rest with [] => False | c :: _ => c ≠ Ch.nl end →
  tight (b ++ Ch.nl :: rest).
Proof.
  intros Hb Hrest Hhead. induction b as [|c b IH]; simpl.
  - done.
  - apply not_elem_of_cons in Hb as [Hc Hb]. split; [done|]. by apply IH.
Qed.

Lemma join_lines_tight (bullets : list (list N)) :
  Forall (λ b, (Ch.nl ∉ b) ∧ b ≠ []) bullets →
  tight (join [Ch.nl] bullets)
  ∧ (bullets ≠ [] →
     match join [Ch.nl] bullets with [] => False | c :: _ => c ≠ Ch.nl end).
Proof.
  induction 1 as [|b bullets [Hb Hne] Hall [IHt IHh]]; [done|].
  assert (∀ rest, match b ++ rest with [] => False | c :: _ => c ≠ Ch.nl end) as Hhead.
  { intros rest. destruct b as [|c b]; [done|]. simpl.
    apply not_elem_of_cons in Hb as [Hc _]. congruence. }
  destruct bullets as [|b' bullets].
  - simpl. split; [by apply tight_line|]. intros _. specialize (Hhead []).
    by rewrite app_nil_r in Hhead.
  - change (join [Ch.nl] (b :: b' :: bullets))
      with (b ++ Ch.nl :: join [Ch.nl] (b' :: bullets)).
    split; [|intros _; apply Hhead].
    apply tight_lines; [done|done|]. by apply IHh.
Qed.

Lemma tight_suffix (s : list N) (j : nat) :
  tight s → j < length s →
  ∃ c t, drop j s = c :: t
    ∧ (c = Ch.nl → match t with [] => False | c' :: _ => c' ≠ Ch.nl end).
Proof.
  revert j. induction s as [|c s IH]; intros j Ht Hj; simpl in *; [lia|].
  destruct Ht as [Hc Hs]. destruct j as [|j]; simpl.
  - by exists c, s.
  - apply IH; [done|lia].
Qed.

Lemma split_line (b : list N) : Ch.nl ∉ b → split Ch.nl b = [b].
Proof.
  induction b as [|c b IH]; [done|].
  intros [Hc Hb]%not_elem_of_cons. simpl.
  destruct (N.eqb_spec c Ch.nl) as [->|_]; [done|]. by rewrite IH.
Qed.

Lemma split_lines (b rest : list N) :
  Ch.nl ∉ b → split Ch.nl (b ++ Ch.nl :: rest) = b :: split Ch.nl rest.
Proof.
  induction b as [|c b IH]; simpl.
  - done.
  - intros [Hc Hb]%not_elem_of_cons.
    destruct (N.eqb_spec c Ch.nl) as [->|_]; [done|]. by rewrite IH.
Qed.

Lemma split_join (bullets : list (list N)) :
  bullets ≠ [] → Forall (λ b, Ch.nl ∉ b) bullets →
  split Ch.nl (join [Ch.nl] bullets) = bullets.
Proof.
  intros Hne Hall. induction Hall as [|b bullets Hb Hall IH]; [done|].
  destruct bullets as [|b' bullets].
  - simpl. by apply split_line.
  - change (join [Ch.nl] (b :: b' :: bullets))
      with (b ++ Ch.nl :: join [Ch.nl] (b' :: bullets)).
    rewrite split_lines by done. f_equal. by apply IH.
Qed.

Lemma fold_add_advantage_bullets (lines acc : list (list N)) :
  Forall (λ b, Inject.is_bullet (strip b) = true) lines →
  fold_left Inject.add_advantage lines acc = acc ++ map strip lines.
Proof.
  intros Hall. revert acc.
  induction Hall as [|b lines Hb Hall IH]; intros acc; simpl.
  - by rewrite app_nil_r.
  - rewrite IH. unfold Inject.add_advantage. rewrite Hb.
    by rewrite <- app_assoc.
Qed.

Lemma drop_lt (l : list N) (j : nat) :
  j < length l → ∃ c t, drop j l = c :: t ∧ c ∈ l.
Proof.
  revert j. induction l as [|c l IH]; intros j Hj; simpl in *; [lia|].
  destruct j as [|j]; simpl.
  - exists c, l. split; [done|]. by left.
  - destruct (IH j) as (d & t & Hd & Hin); [lia|].
    exists d, t. split; [done|]. by right.
Qed.

(** The end of the group of a section pattern fails inside a tight text. *)
Lemma section_end_fails (c : N) (g t after : list N) :
  (c = Ch.nl → match t with [] => False | c' :: _ => c' ≠ Ch.nl end) →
  Re.alt (Re.text [Ch.nl; Ch.nl; Ch.hash; Ch.hash] (λ _, Some g))
         (Re.dollar (λ _, Some g)) (c :: t ++ after) = None.
Proof.
  intros Hc. unfold Re.alt, Re.text.
  assert (startswith [Ch.nl; Ch.nl; Ch.hash; Ch.hash] (c :: t ++ after) = false)
    as ->.
  { destruct (decide (c = Ch.nl)) as [->|Hne].
    - destruct t as [|c' t]; [by destruct Hc|]. specialize (Hc eq_refl).
      cbn [startswith app]. rewrite N.eqb_refl. cbn [andb].
      by apply (startswith_head [Ch.hash; Ch.hash]).
    - by apply startswith_head. }
  unfold Re.dollar.
  destruct (decide (c = Ch.nl)) as [->|Hne].
  - destruct t as [|c' t]; [by destruct Hc|]. done.
  - destruct (t ++ after); [|done].
    by destruct (N.eqb_spec c 10%N) as [->|_].
Qed.

Lemma section_end_matches (g after : list N) :
  after = [] ∨ after = [Ch.nl]
  ∨ startswith [Ch.nl; Ch.nl; Ch.hash; Ch.hash] after = true →
  Re.alt (Re.text [Ch.nl; Ch.nl; Ch.hash; Ch.hash] (λ _, Some g))
         (Re.dollar (λ _, Some g)) after = Some g.
Proof.
  unfold Re.alt, Re.text, Re.dollar. intros [->|[->|H]]; [done|done|].
  by rewrite H.
Qed.

Lemma section_pattern_matches (heading tail body after : list N) (bol : bool) :
  Ch.nl ∉ tail → body ≠ [] → tight body →
  after = [] ∨ after = [Ch.nl]
  ∨ startswith [Ch.nl; Ch.nl; Ch.hash; Ch.hash] after = true →
  Inject.section_pattern heading bol
    (heading ++ tail ++ [Ch.nl; Ch.nl] ++ body ++ after) = Some body.
Proof.
  intros Htail Hne Htight Hafter. unfold Inject.section_pattern.
  rewrite text_app. unfold Re.lazy_star.
  apply lazy_from_first; [apply all_of_any| |].
  - intros j Hj. destruct (drop_lt tail j Hj) as (c & t & -> & Hc).
    unfold Re.text. simpl (_ ++ _). rewrite startswith_head; [done|].
    intros ->. by apply Htail.
  - rewrite text_app. destruct body as [|c0 body]; [done|].
    unfold Re.lazy_plus. simpl ((c0 :: body) ++ after).
    rewrite one_cons by done.
    apply lazy_from_first; [apply all_of_any| |].
    + intros j Hj.
      destruct (tight_suffix (c0 :: body) (S j) Htight) as (c & t & Hd & Hc);
        [simpl; lia|].
      simpl in Hd. rewrite Hd. by apply section_end_fails.
    + by apply section_end_matches.
Qed.

Lemma heading_not_before (heading before rest : list N) :
  (∀ i, i < length before →
        startswith heading (drop i (before ++ heading)) = false) →
  ∀ (b : bool) i, i < length before →
    Inject.section_pattern heading b (drop i before ++ heading ++ rest) = None.
Proof.
  intros Hfirst b i Hi. unfold Inject.section_pattern, Re.text.
  rewrite app_assoc, startswith_app_ge.
  - rewrite <- drop_app_le by lia. by rewrite Hfirst.
  - rewrite length_app. lia.
Qed.

Lemma extract_advantages_bullets (before tail after : list N)
    (bullets : list (list N)) :
  (∀ i, i < length before →
        startswith (lit "## Advantages") (drop i (before ++ lit "## Advantages"))
        = false) →
  Ch.nl ∉ tail →
  bullets ≠ [] →
  Forall (λ b, (Ch.nl ∉ b) ∧ Inject.is_bullet (strip b) = true) bullets →
  after = [] ∨ after = [Ch.nl]
  ∨ startswith [Ch.nl; Ch.nl; Ch.hash; Ch.hash] after = true →
  Inject.extract_advantages (sidecar_with_advantages before tail bullets after)
  = take 4 (map strip bullets).
Proof.
  intros Hfirst Htail Hne Hall Hafter.
  assert (Forall (λ b, (Ch.nl ∉ b) ∧ b ≠ []) bullets) as Hlines.
  { eapply Forall_impl; [exact Hall|]. intros b [Hb Hbul]. split; [done|].
    by intros ->. }
  destruct (join_lines_tight bullets Hlines) as [Htight Hhead].
  unfold Inject.extract_advantages, sidecar_with_advantages, Re.search.
  rewrite (search_from_first _ _ _ (join [Ch.nl] bullets)).
  - rewrite split_join; [|done|].
    + rewrite fold_add_advantage_bullets; [done|].
      eapply Forall_impl; [exact Hall|]. by intros b [_ Hb].
    + eapply Forall_impl; [exact Hall|]. by intros b [Hb _].
  - intros b i Hi. by apply heading_not_before.
  - intros b. apply section_pattern_matches; try done.
    intros Hj. specialize (Hhead Hne). by rewrite Hj in Hhead.
Qed.

Lemma below_all (P : nat → Prop) (n : nat) :
  Forall P (seq 0 n) → ∀ i, i < n → P i.
Proof.
  intros H i Hi. rewrite Forall_forall in H. apply H, elem_of_seq. lia.
Qed.

Lemma md_fields_why_use (content : list N) :
  Inject.extract_advantages content ≠ [] →
  Inject.md_fields content !! lit "why_use" =
    Some (join ([Ch.nl] ++ lit " * ") (Inject.extract_advantages content)).
Proof.
  intros Hne. unfold Inject.md_fields.
  rewrite lookup_insert_ne by by_decide.
  rewrite lookup_insert_ne by by_decide.
  rewrite lookup_insert_eq.
  by destruct (Inject.extract_advantages content).
Qed.



(** ** The file system of the examples *)

Lemma grows_refl (n : gmap (list (list N)) node) : grows n n.
Proof. by split. Qed.

Lemma grows_trans (n1 n2 n3 : gmap (list (list N)) node) :
  grows n1 n2 → grows n2 n3 → grows n1 n3.
Proof. intros [H1 H2] [H3 H4]. split; intros k Hk; [by apply H3, H1|by apply H4, H2]. Qed.

Lemma grows_insert_file (n : gmap (list (list N)) node) (loc : list (list N))
    (data : result (list N)) :
  n !! loc ≠ Some Dir → grows n (<[loc := File data]> n).
Proof.
  intros Hloc. split; intros k Hk.
  - rewrite lookup_insert_ne; [done|]. intros ->. by apply Hloc.
  - destruct (decide (loc = k)) as [->|Hne].
    + rewrite lookup_insert_eq. by eexists.
    + by rewrite lookup_insert_ne.
Qed.

Lemma grows_insert_dir (n : gmap (list (list N)) node) (loc : list (list N)) :
  n !! loc = None → grows n (<[loc := Dir]> n).
Proof.
  intros Hloc. split; intros k Hk.
  - rewrite lookup_insert_ne; [done|]. intros ->. congruence.
  - destruct (decide (loc = k)) as [->|Hne].
    + rewrite lookup_insert_eq. by eexists.
    + by rewrite lookup_insert_ne.
Qed.

Lemma not_a_dir_grows n n' (loc : list (list N)) :
  grows n n' → Posix.not_a_dir n loc = None → Posix.not_a_dir n' loc = None.
Proof.
  intros [Hdir _]. unfold Posix.not_a_dir. destruct loc as [|c loc]; [done|].
  destruct (n !! (c :: loc)) as [[|data]|] eqn:Hk; try done.
  by rewrite (Hdir _ Hk).
Qed.

Lemma parent_of_grows n n' (loc : list (list N)) (c : list N) (rest : list (list N))
    (r : list (list N) * list N) :
  grows n n' →
  Posix.parent_of n loc c rest = inr r → Posix.parent_of n' loc c rest = inr r.
Proof.
  intros Hgrows. revert loc c. induction rest as [|c' rest IH]; intros loc c; simpl.
  - destruct (Posix.not_a_dir n loc) eqn:Hloc; [done|].
    by rewrite (not_a_dir_grows _ _ _ Hgrows Hloc).
  - destruct (Posix.not_a_dir n loc) eqn:Hloc; [done|].
    rewrite (not_a_dir_grows _ _ _ Hgrows Hloc). apply IH.
Qed.

Lemma stat_regular n (p : list N) (loc : list (list N)) (data : result (list N))
    (slash_after : bool) :
  Posix.stat n p = Posix.Regular loc data slash_after → n !! loc = Some (File data).
Proof.
  unfold Posix.stat. repeat case_match; try done. by intros [= <- <- _].
Qed.

Lemma stat_missing n (p : list N) (loc : list (list N)) (slash_after : bool) :
  Posix.stat n p = Posix.Missing loc slash_after → n !! loc = None.
Proof.
  unfold Posix.stat. repeat case_match; try done. by intros [= <- _].
Qed.

Lemma stat_after_write n (p : list N) (loc : list (list N)) (x : result (list N)) :
  (∃ data, Posix.stat n p = Posix.Regular loc data false)
  ∨ Posix.stat n p = Posix.Missing loc false →
  Posix.stat (<[loc := File x]> n) p = Posix.Regular loc x false.
Proof.
  intros Hstat.
  assert (grows n (<[loc := File x]> n)) as Hgrows.
  { apply grows_insert_file.
    destruct Hstat as [[data Hs]|Hs];
      [rewrite (stat_regular _ _ _ _ _ Hs)|rewrite (stat_missing _ _ _ _ Hs)]; done. }
  revert Hstat. unfold Posix.stat.
  case_bool_decide; [by intros [[? ?]|?]|].
  destruct (Posix.components p) as [|c rest]; [by intros [[? ?]|?]|].
  destruct (Posix.parent_of n [] c rest) as [e|[loc0 l]] eqn:Hwalk;
    [by intros [[? ?]|?]|].
  rewrite (parent_of_grows _ _ _ _ _ _ Hgrows Hwalk).
  destruct (Posix.dots l); [by intros [[? ?]|?]|].
  destruct (n !! (loc0 ++ [l])) as [[|data]|] eqn:Hk.
  - by intros [[? ?]|?].
  - intros [[data' [= <- _ ->]]|?]; [|done]. by rewrite lookup_insert_eq.
  - intros [[? ?]|[= <- ->]]; [done|]. by rewrite lookup_insert_eq.
Qed.

Lemma exists_grows (t : tree) n' (p : list N) :
  grows (nodes t) n' →
  Posix.exists_ t p = true → Posix.exists_ (Posix.with_nodes t n') p = true.
Proof.
  intros Hgrows. unfold Posix.exists_, Posix.refusal.
  cbn [refused nodes Posix.with_nodes].
  destruct (if bool_decide (0%N ∈ p) then _ else _); [done|]. unfold Posix.stat.
  case_bool_decide; [done|].
  destruct (Posix.components p) as [|c rest]; [done|].
  destruct (Posix.parent_of (nodes t) [] c rest) as [e|[loc0 l]] eqn:Hwalk; [done|].
  rewrite (parent_of_grows _ _ _ _ _ _ Hgrows Hwalk).
  destruct (Posix.dots l); [done|].
  destruct (nodes t !! (loc0 ++ [l])) as [[|data]|] eqn:Hk; [| |done].
  - destruct Hgrows as [Hdir _]. by rewrite (Hdir _ Hk).
  - destruct Hgrows as [_ Hsome]. destruct (Hsome (loc0 ++ [l])) as [[|data'] ->];
      [by eexists|done|done].
Qed.

Lemma with_nodes_same (t : tree) : Posix.with_nodes t (nodes t) = t.
Proof. by destruct t. Qed.

Lemma grown_refl (t : tree) : grown t t.
Proof. exists (nodes t). split; [by rewrite with_nodes_same|apply grows_refl]. Qed.

Lemma grown_trans (t1 t2 t3 : tree) : grown t1 t2 → grown t2 t3 → grown t1 t3.
Proof.
  intros (n2 & -> & H2) (n3 & -> & H3). exists n3. split; [done|].
  by eapply grows_trans.
Qed.

Lemma exists_grown (t t' : tree) (p : list N) :
  grown t t' → Posix.exists_ t p = true → Posix.exists_ t' p = true.
Proof. intros (n' & -> & Hgrows). by apply exists_grows. Qed.

Lemma write_grown (t : tree) (p content : list N) : grown t (Posix.write t p content).2.
Proof.
  unfold Posix.write. destruct (Posix.refusal t p); [apply grown_refl|].
  destruct (Posix.stat (nodes t) p) as [e|loc|loc data [|]|loc [|]] eqn:Hstat;
    try apply grown_refl; destruct (Posix.encode_error content);
    cbn [snd]; eexists; (split; [done|]); apply grows_insert_file.
  1,2: by rewrite (stat_regular _ _ _ _ _ Hstat).
  1,2: by rewrite (stat_missing _ _ _ _ Hstat).
Qed.

Lemma mkdir_grown (t : tree) (p : list N) : grown t (Posix.mkdir t p).2.
Proof.
  unfold Posix.mkdir. destruct (Posix.refusal t p); [apply grown_refl|].
  destruct (Posix.stat (nodes t) p) as [e|loc|loc data sl|loc sl] eqn:Hstat;
    try apply grown_refl; cbn [snd]; eexists; (split; [done|]).
  apply grows_insert_dir. by apply (stat_missing _ _ _ _ Hstat).
Qed.

Lemma mkdir_exist_ok_grown (t : tree) (p : list N) :
  grown t (Posix.mkdir_exist_ok t p).2.
Proof.
  unfold Posix.mkdir_exist_ok. pose proof (mkdir_grown t p) as Hg.
  destruct (Posix.mkdir t p) as [[[]|e] t']; [done|].
  by destruct (Posix.is_os_error e && Posix.isdir t' p).
Qed.

Lemma makedirs_from_grown (fuel : nat) (t : tree) (name : list N) :
  grown t (Posix.makedirs_from fuel t name).2.
Proof.
  revert t name. induction fuel as [|fuel IH]; intros t name;
    cbn [Posix.makedirs_from].
  - repeat case_match; apply mkdir_exist_ok_grown.
  - destruct (Posix.psplit name) as [head0 tail0].
    destruct (if bool_decide (tail0 = []) then Posix.psplit head0 else (head0, tail0))
      as [head tail].
    destruct (_ && negb (Posix.exists_ t head)); [|apply mkdir_exist_ok_grown].
    pose proof (IH t head) as Hg.
    destruct (Posix.makedirs_from fuel t head) as [[[]|e] t1]; cbn [snd] in Hg.
    + case_bool_decide; [done|].
      eapply grown_trans; [exact Hg|apply mkdir_exist_ok_grown].
    + destruct e; try done.
      case_bool_decide; [done|].
      eapply grown_trans; [exact Hg|apply mkdir_exist_ok_grown].
Qed.

Lemma tree_written_file_exists : written_file_exists (T := tree).
Proof.
  intros t t' path content. cbn [fs_write fs_exists tree_fs].
  unfold Posix.write, Posix.exists_.
  destruct (Posix.refusal t path) eqn:Href; [done|].
  destruct (Posix.stat (nodes t) path) as [e|loc|loc data [|]|loc [|]] eqn:Hstat;
    try done; destruct (Posix.encode_error content); try done; intros [= <-];
    change (Posix.refusal (Posix.with_nodes t ?n) path) with (Posix.refusal t path);
    rewrite Href; cbn [nodes Posix.with_nodes].
  - rewrite (stat_after_write _ _ loc); [done|]. left. by eexists.
  - rewrite (stat_after_write _ _ loc); [done|]. by right.
Qed.

Lemma tree_existing_paths_stay : existing_paths_stay (T := tree).
Proof.
  intros t path q Hq. cbn [fs_write fs_exists fs_makedirs tree_fs] in *. split.
  - intros content. eapply exists_grown; [apply write_grown|done].
  - eapply exists_grown; [apply makedirs_from_grown|done].
Qed.

(** ** Examples *)

(** C7 at the example of the specification and at a single-token
    identifier. *)
Lemma get_tool_filename_strips_prefix_witness :
  Extract.get_tool_filename (lit "simctl-boot-device") = lit "boot-device"
  ∧ Extract.get_tool_filename (lit "health") = lit "health".
Proof.
  split.
  - apply (proj1 (get_tool_filename_strips_prefix (lit "simctl-boot-device"))
             (lit "simctl") (lit "boot-device")); [reflexivity | by_decide].
  - apply (proj2 (get_tool_filename_strips_prefix (lit "health"))). by_decide.
Defined.

(** C2, as the claim words it, fails: without the aggregation source the run
    ends with exit status 0. *)
Lemma main_missing_index_exit_status :
  fs_exists empty_tree Extract.index_path = false
  ∧ ¬ ((run_script Extract.main empty_tree).2 ≠ 0).
Proof. split; [by vm_compute|]. intros H0. apply H0. by vm_compute. Qed.

Lemma main_missing_index_witness :
  run_script Extract.main empty_tree =
    (World empty_tree
       [Printed ([Ch.page] ++ lit " Extracting tool documentation from index.ts...");
        Printed ([Ch.cross] ++ lit " Could not find src/index.ts")],
     0).
Proof. apply main_missing_index. by vm_compute. Defined.




Lemma multi_export_files_untouched_witness :
  let fs :=
    tree_of [(lit "src/tools/cache/cache-management.ts", lit "export function a() {}")] in
  let path := Path.child (lit "src/tools/cache") (lit "cache-management.ts") in
  let after := (run_script (Inject.main (λ _, false)) fs).1 in
  fs_read (files after) path = fs_read fs path
  ∧ ∀ e, e ∈ trace after → ¬ opens path e.
Proof.
  intros fs path after.
  apply (multi_export_files_untouched (λ _, false) fs (lit "src/tools/cache")
           (lit "cache-management.ts")).
  by_decide.
Defined.

Lemma rerun_skips_spliced_file_witness :
  let file_path := lit "src/tools/simctl/boot.ts" in
  let content := lit "import { run } from '../../utils/command';

export async function simctlBoot(args: any) {
  return run(args);
}" in
  let new_content :=
    Inject.splice content 44
      (Inject.jsdoc_template (lit "simctl-boot") (lit "Boot a device.")
         (lit "- Waits until ready") (lit "- udid")
         (lit "Structured result with status, metadata, and guidance")
         (lit "await toolFunction(args)") (lit "boot.md")) in
  let w := World (tree_of [(file_path, new_content)]) [] in
  Inject.jsdoc_exists new_content = true
  ∧ Inject.add_jsdoc_to_file (λ _, false) file_path (lit "src/tools/simctl/boot.md") w =
      (Ok false,
       World (files w) [OpenRead file_path; Printed (jsdoc_exists_line file_path)]).
Proof.
  intros file_path content new_content w.
  apply (rerun_skips_spliced_file (λ _, false) file_path
           (lit "src/tools/simctl/boot.md") content 44).
  - lia.
  - by vm_compute.
Defined.

(** The bound of 497 characters is sharp: when the entry point starts
    beyond it, a block spliced there lies where the check on the first 500
    characters does not see it. *)
Lemma splice_beyond_prefix_not_detected :
  let content :=
    concat (replicate 10 (lit "import { executeCommand } from '../../utils/cmd';
")) ++ lit "export async function simctlBoot(args: any) {
}" in
  let jsdoc :=
    Inject.jsdoc_template (lit "simctl-boot") (lit "Boot a device.")
      (lit "- Waits until ready") (lit "- udid")
      (lit "Structured result with status, metadata, and guidance")
      (lit "await toolFunction(args)") (lit "boot.md") in
  Inject.jsdoc_exists content = false
  ∧ Inject.find_function_export (λ _, false) content (lit "simctl-boot")
    = (Some 500, Some (lit "export async function simctlBoot(args: any) {"))
  ∧ Inject.jsdoc_exists (Inject.splice content 500 jsdoc) = false.
Proof. intros content jsdoc. by vm_compute. Qed.

Lemma extractor_generated_count_witness :
  let fs :=
    tree_of [(Extract.index_path,
              lit "this.server.registerTool('idb-tap', { description: `Tap` });
this.server.registerTool('adb-tap', { description: `Tap too` });
this.server.registerTool('xyz-tap', { description: `Tap again` });")] in
  let after := run_script Extract.main fs in
  ∃ keys, summary_lines_printed (write_count (trace after.1)) (tools_found fs) keys
          `suffix_of` trace after.1.
Proof.
  intros fs after. apply (extractor_generated_count fs); by vm_compute.
Defined.

Lemma add_jsdoc_soft_failures_witness :
  let w :=
    World (tree_of [(lit "src/tools/idb/tap.ts", lit "export function tap() {}")]) [] in
  Inject.add_jsdoc_to_file (λ _, false) (lit "src/tools/idb/gone.ts")
    (lit "src/tools/idb/gone.md") w =
    (Ok false,
     World (files w)
       [OpenRead (lit "src/tools/idb/gone.ts");
        Printed (lit "   " ++ [Ch.cross]
                 ++ lit " Could not read src/tools/idb/gone.ts: [Errno 2] No such file or directory: 'src/tools/idb/gone.ts'")])
  ∧ Inject.add_jsdoc_to_file (λ _, false) (lit "src/tools/idb/tap.ts")
      (lit "src/tools/idb/tap.md") w =
      (Ok false,
       World (files w)
         [OpenRead (lit "src/tools/idb/tap.ts"); OpenRead (lit "src/tools/idb/tap.md");
          Printed (lit "   " ++ [Ch.warning; Ch.vs16] ++ lit "  tap.ts (no markdown found)")]).
Proof.
  intros w. split.
  - apply (proj1 (add_jsdoc_soft_failures (λ _, false) (lit "src/tools/idb/gone.ts")
                    (lit "src/tools/idb/gone.md") w)
             (FileNotFoundError
                (lit "[Errno 2] No such file or directory: 'src/tools/idb/gone.ts'"))).
    by vm_compute.
  - apply (proj2 (add_jsdoc_soft_failures (λ _, false) (lit "src/tools/idb/tap.ts")
                    (lit "src/tools/idb/tap.md") w)
             (lit "export function tap() {}")
             (lit "[Errno 2] No such file or directory: 'src/tools/idb/tap.md'"));
      by vm_compute.
Defined.

Lemma injector_reports_zero_updates_witness :
  let fs :=
    tree_of
      [(lit "src/tools/idb/tap.ts", lit "export function tap() {}");
       (lit "src/tools/idb/index.ts", lit "export * from './tap';");
       (lit "src/tools/cache/stats.ts", lit "/** Cache statistics */
export function stats() {}");
       (lit "src/tools/cache/stats.md", lit "# cache-stats")] in
  last (trace (run_script (Inject.main (λ _, false)) fs).1) =
    Some (Printed ([Ch.nl; Ch.sparkles] ++ lit " Updated 0/2 tool files")).
Proof.
  intros fs.
  refine (eq_trans (proj2 (injector_reports_zero_updates (λ _, false) fs _)) _);
    by vm_compute.
Defined.

(** C1: with the code as written, the first source file that has a sidecar
    and no comment marker ends the whole run: the call of
    [find_function_export] with one argument raises [TypeError], nothing
    catches it, the exit status is 1 and the files after it ([list.ts]
    here) are never looked at. *)
Theorem injector_halts_at_first_documentable_file :
  let fs :=
    tree_of
      [(lit "src/tools/simctl/boot.ts", lit "export async function simctlBoot(args: any) {
}");
       (lit "src/tools/simctl/boot.md", lit "# simctl-boot

Boot a device.
");
       (lit "src/tools/simctl/list.ts", lit "export async function simctlList(args: any) {
}");
       (lit "src/tools/simctl/list.md", lit "# simctl-list

List devices.
")] in
  Inject.add_jsdoc_to_file (λ _, false) (lit "src/tools/simctl/boot.ts")
    (lit "src/tools/simctl/boot.md") (World fs [])
  = (Raise (TypeError missing_argument),
     World fs [OpenRead (lit "src/tools/simctl/boot.ts");
               OpenRead (lit "src/tools/simctl/boot.md")])
  ∧ run_script (Inject.main (λ _, false)) fs
  = (World fs
       [Printed ([Ch.books] ++ lit " Adding JSDoc documentation to tool files..."
                 ++ [Ch.nl]);
        Printed ([Ch.folder] ++ lit " xcodebuild/ (0 tools)");
        Printed ([Ch.folder] ++ lit " simctl/ (2 tools)");
        OpenRead (lit "src/tools/simctl/boot.ts");
        OpenRead (lit "src/tools/simctl/boot.md")],
     1).
Proof.
  intros fs. split.
  - rewrite add_jsdoc_to_file_run. cbn [files trace].
    assert (fs_read fs (lit "src/tools/simctl/boot.ts")
            = Ok (lit "export async function simctlBoot(args: any) {
}")) as -> by by vm_compute.
    assert (Inject.jsdoc_exists (lit "export async function simctlBoot(args: any) {
}") = false) as -> by by vm_compute.
    assert (fs_read fs (lit "src/tools/simctl/boot.md")
            = Ok (lit "# simctl-boot

Boot a device.
")) as -> by by vm_compute.
    done.
  - destruct (main_run_injector (λ _, false) fs) as (status & tr & Hrun & _).
    rewrite Hrun. f_equal; [f_equal|].
    + transitivity (trace (run_script (Inject.main (λ _, false)) fs).1);
        [by rewrite Hrun|by vm_compute].
    + transitivity ((run_script (Inject.main (λ _, false)) fs).2);
        [by rewrite Hrun|by vm_compute].
Qed.

(** * Further properties *)

(** ** The scanning loop of the formatter *)

Lemma scan_line_word (st : Extract.scan) (l : list N) :
  has_word l = true →
  Extract.scan_line st l =
    Extract.Scan (Extract.advantages st) (Extract.summary_lines st) true.
Proof. intros H. unfold Extract.scan_line. unfold has_word in H. by rewrite H. Qed.

Lemma scan_line_outside (a s : list (list N)) (l : list N) :
  has_word l = false →
  Extract.scan_line (Extract.Scan a s false) l = Extract.Scan a (s ++ [l]) false.
Proof. intros H. unfold Extract.scan_line. unfold has_word in H. by rewrite H. Qed.

Lemma scan_line_bullet (a s : list (list N)) (l : list N) :
  has_word l = false → bullet_line l = true →
  Extract.scan_line (Extract.Scan a s true) l =
    Extract.Scan (a ++ [strip l]) s true.
Proof.
  intros H Hb. unfold Extract.scan_line. unfold has_word in H.
  unfold bullet_line in Hb. rewrite H. simpl. by rewrite Hb.
Qed.

Lemma scan_line_blank (a s : list (list N)) (l : list N) :
  has_word l = false → strip l = [] →
  Extract.scan_line (Extract.Scan a s true) l = Extract.Scan a s true.
Proof.
  intros H Hb. unfold Extract.scan_line. unfold has_word in H.
  rewrite H, Hb. reflexivity.
Qed.

Lemma scan_line_stop (a s : list (list N)) (l : list N) :
  has_word l = false → bullet_line l = false → strip l ≠ [] →
  Extract.scan_line (Extract.Scan a s true) l = Extract.Scan a (s ++ [l]) false.
Proof.
  intros H Hb Hne. unfold Extract.scan_line. unfold has_word in H.
  unfold bullet_line in Hb. rewrite H. simpl. rewrite Hb.
  rewrite bool_decide_false by done. by repeat case_match.
Qed.

Lemma scan_outside (lines a s : list (list N)) :
  Forall (λ l, has_word l = false) lines →
  fold_left Extract.scan_line lines (Extract.Scan a s false) =
    Extract.Scan a (s ++ lines) false.
Proof.
  intros H. revert s. induction H as [|l lines Hl H IH]; intros s; simpl.
  - by rewrite app_nil_r.
  - rewrite scan_line_outside by done. rewrite IH. by rewrite <- app_assoc.
Qed.

Lemma scan_block (block a s : list (list N)) :
  Forall (λ l, has_word l = false ∧ (bullet_line l = true ∨ strip l = [])) block →
  fold_left Extract.scan_line block (Extract.Scan a s true) =
    Extract.Scan (a ++ map strip (filter (λ l, Is_true (bullet_line l)) block)) s true.
Proof.
  intros H. revert a. induction H as [|l block [Hw Hl] H IH]; intros a; simpl.
  - by rewrite app_nil_r.
  - rewrite filter_cons. destruct (bullet_line l) eqn:Hb.
    + rewrite scan_line_bullet by done. rewrite IH. simpl.
      by rewrite <- app_assoc.
    + destruct Hl as [Hl|Hl]; [done|].
      rewrite scan_line_blank by done. by rewrite IH.
Qed.

Lemma format_markdown_of_scan (tool_name description : list N) :
  Extract.format_markdown tool_name description =
    lit "# " ++ tool_name ++ [Ch.nl; Ch.nl]
    ++ written (nonblank_lines
         (take 5 (Extract.summary_lines (Extract.scan_description description))))
    ++ advantages_section (Extract.advantages (Extract.scan_description description))
    ++ Extract.scaffold tool_name.
Proof.
  unfold Extract.format_markdown. rewrite fold_add_summary_line.
  unfold advantages_section.
  destruct (Extract.advantages _) as [|a advs].
  - by rewrite <- !app_assoc.
  - rewrite fold_add_advantage. by rewrite <- !app_assoc.
Qed.

(** X1: a description none of whose lines has one of the three words gets no
    advantages section: all its lines are summary lines, and the document
    is the heading, the non-blank lines among the first five, and the
    scaffold. *)
Theorem format_markdown_without_words (tool_name description : list N) :
  Forall (λ l, has_word l = false) (split Ch.nl description) →
  Extract.scan_description description =
    Extract.Scan [] (split Ch.nl description) false
  ∧ Extract.format_markdown tool_name description =
      lit "# " ++ tool_name ++ [Ch.nl; Ch.nl]
      ++ written (nonblank_lines (take 5 (split Ch.nl description)))
      ++ Extract.scaffold tool_name.
Proof.
  intros H.
  assert (Extract.scan_description description =
          Extract.Scan [] (split Ch.nl description) false) as Hscan.
  { unfold Extract.scan_description. by rewrite scan_outside. }
  split; [done|]. rewrite format_markdown_of_scan, Hscan. reflexivity.
Qed.

Lemma format_markdown_without_words_witness :
  Extract.format_markdown (lit "simctl-boot") (lit "Boot a device.

It waits until the device is ready.") =
    lit "# simctl-boot

Boot a device.
It waits until the device is ready.
" ++ Extract.scaffold (lit "simctl-boot").
Proof.
  refine (eq_trans (proj2 (format_markdown_without_words _ _ _)) _).
  - by_decide.
  - by vm_compute.
Defined.

(** X2: a description with one advantages block.  After the lines [pre], a
    line with one of the three words opens the block; in the block, bullet
    lines are collected (stripped) and blank lines are passed over; the
    block ends at the first other line, and that line and all lines after
    it ([rest]) are summary lines again.  The document then carries the
    first five collected bullets under its own [## Advantages] heading. *)
Theorem format_markdown_one_block (tool_name : list N)
    (pre : list (list N)) (heading : list N) (block rest : list (list N)) :
  let lines := pre ++ heading :: block ++ rest in
  let advs := map strip (filter (λ l, Is_true (bullet_line l)) block) in
  Forall (λ l, Ch.nl ∉ l) lines →
  Forall (λ l, has_word l = false) pre →
  has_word heading = true →
  Forall (λ l, has_word l = false ∧ (bullet_line l = true ∨ strip l = [])) block →
  Forall (λ l, has_word l = false) rest →
  match rest with
  | [] => True
  | stop :: _ => bullet_line stop = false ∧ strip stop ≠ []
  end →
  Extract.scan_description (join [Ch.nl] lines) =
    Extract.Scan advs (pre ++ rest) (bool_decide (rest = []))
  ∧ Extract.format_markdown tool_name (join [Ch.nl] lines) =
      lit "# " ++ tool_name ++ [Ch.nl; Ch.nl]
      ++ written (nonblank_lines (take 5 (pre ++ rest)))
      ++ advantages_section advs
      ++ Extract.scaffold tool_name.
Proof.
  intros lines advs Hnl Hpre Hhead Hblock Hrest Hstop.
  assert (Extract.scan_description (join [Ch.nl] lines) =
          Extract.Scan advs (pre ++ rest) (bool_decide (rest = []))) as Hscan.
  { unfold Extract.scan_description. rewrite split_join; [|by destruct pre|done].
    subst lines. rewrite fold_left_app, scan_outside by done.
    cbn [fold_left]. rewrite scan_line_word by done.
    rewrite fold_left_app. cbn [Extract.advantages Extract.summary_lines].
    rewrite scan_block by done. simpl ([] ++ _). fold advs.
    destruct rest as [|stop rest].
    - by rewrite !app_nil_r.
    - destruct Hstop as [Hb Hne]. apply Forall_cons in Hrest as [Hs Hrest].
      cbn [fold_left]. rewrite scan_line_stop by done.
      rewrite scan_outside by done. by rewrite <- app_assoc. }
  split; [done|]. rewrite format_markdown_of_scan, Hscan. reflexivity.
Qed.

Lemma format_markdown_one_block_witness :
  let description := lit "Boot a device.
## Advantages
- Waits until ready

  - Retries
* starred line
Notes follow.
- a later bullet" in
  Extract.scan_description description =
    Extract.Scan [lit "- Waits until ready"; lit "- Retries"]
      [lit "Boot a device."; lit "* starred line"; lit "Notes follow.";
       lit "- a later bullet"] false.
Proof.
  intros description.
  refine (eq_trans (proj1 (format_markdown_one_block [] [lit "Boot a device."]
            (lit "## Advantages") [lit "- Waits until ready"; []; lit "  - Retries"]
            [lit "* starred line"; lit "Notes follow."; lit "- a later bullet"]
            _ _ _ _ _ _)) _); try by_decide.
  by vm_compute.
Defined.

(** X3: whatever the description, a line that has one of the three words
    reaches neither list: every summary line is a line of the description
    without these words, and every advantage is such a line stripped, and
    starts with a bullet mark. *)
Theorem scan_keeps_only_lines_without_words (description : list N) :
  let st := Extract.scan_description description in
  Forall (λ l, l ∈ split Ch.nl description ∧ has_word l = false)
    (Extract.summary_lines st)
  ∧ Forall (λ a, Extract.is_bullet a = true
                 ∧ ∃ l, l ∈ split Ch.nl description ∧ has_word l = false
                        ∧ a = strip l)
      (Extract.advantages st).
Proof.
  intros st. subst st. unfold Extract.scan_description.
  set (L := split Ch.nl description).
  set (I := λ st : Extract.scan,
    Forall (λ l, l ∈ L ∧ has_word l = false) (Extract.summary_lines st)
    ∧ Forall (λ a, Extract.is_bullet a = true
                   ∧ ∃ l, l ∈ L ∧ has_word l = false ∧ a = strip l)
        (Extract.advantages st)).
  assert (∀ ls st0, (∀ l, l ∈ ls → l ∈ L) → I st0 →
                    I (fold_left Extract.scan_line ls st0)) as Hfold.
  { induction ls as [|l ls IH]; intros st0 Hin Hst0; [done|].
    simpl. apply IH; [intros l' Hl'; apply Hin; by right|].
    assert (l ∈ L) as Hl by (apply Hin; by left).
    destruct Hst0 as [Hs Ha]. unfold Extract.scan_line.
    fold (has_word l). destruct (has_word l) eqn:Hw; [by split|].
    destruct (Extract.in_advantages st0).
    - fold (Extract.is_bullet (strip l)).
      destruct (Extract.is_bullet (strip l)) eqn:Hb.
      + split; [done|]. cbn. apply Forall_app. split; [done|].
        apply Forall_singleton. split; [done|]. by exists l.
      + repeat case_match; split; cbn; try done;
          apply Forall_app; (split; [done|]); by apply Forall_singleton.
    - split; cbn; [|done]. apply Forall_app. split; [done|].
      by apply Forall_singleton. }
  apply Hfold; [done|]. by split.
Qed.

(** ** What a match of a pattern tells *)

Lemma startswith_true (p s : list N) :
  startswith p s = true → s = p ++ drop (length p) s.
Proof.
  revert s. induction p as [|c p IH]; intros [|d s] H; simpl in *; try done.
  apply andb_true_iff in H as [Hc H]. apply N.eqb_eq in Hc as ->.
  f_equal. by apply IH.
Qed.

(** Soundness of the combinators for a property [Q] of the text matched
    against and the answer, when [Q] is kept by putting characters in
    front of the text. *)
Section ReSound.
Context {A : Type}.
Variable Q : list N → A → Prop.
Hypothesis Q_cons : ∀ c s r, Q s r → Q (c :: s) r.

Lemma Q_app (pre s : list N) (r : A) : Q s r → Q (pre ++ s) r.
Proof. intros H. induction pre as [|c pre IH]; [done|]. by apply Q_cons. Qed.

Lemma text_sound (p : list N) (k : list N → option A) :
  sound1 Q k → sound1 Q (Re.text p k).
Proof.
  intros Hk s r. unfold Re.text. destruct (startswith p s); [|done].
  intros H%Hk. rewrite <- (take_drop (length p) s). by apply Q_app.
Qed.

Lemma one_sound (cls : N → bool) (k : N → list N → option A) :
  (∀ c, sound1 Q (k c)) → sound1 Q (Re.one cls k).
Proof.
  intros Hk [|c s] r; simpl; [done|]. destruct (cls c); [|done].
  intros H%Hk. by apply Q_cons.
Qed.

Lemma star_from_sound (cls : N → bool) (k : list N → list N → option A) (acc : list N) :
  sound2 Q k → sound1 Q (Re.star_from cls k acc).
Proof.
  intros Hk s. revert acc. induction s as [|c s IH]; intros acc r; simpl.
  - apply Hk.
  - destruct (cls c); [|apply Hk].
    destruct (Re.star_from cls k (acc ++ [c]) s) as [r'|] eqn:Hs.
    + intros [= <-]. apply Q_cons. by eapply IH.
    + apply Hk.
Qed.

Lemma star_sound (cls : N → bool) (k : list N → list N → option A) :
  sound2 Q k → sound1 Q (Re.star cls k).
Proof. apply star_from_sound. Qed.

Lemma plus_sound (cls : N → bool) (k : list N → list N → option A) :
  sound2 Q k → sound1 Q (Re.plus cls k).
Proof. intros Hk. apply one_sound. intros c. by apply star_from_sound. Qed.

Lemma lazy_from_sound (cls : N → bool) (k : list N → list N → option A) (acc : list N) :
  sound2 Q k → sound1 Q (Re.lazy_from cls k acc).
Proof.
  intros Hk s. revert acc. induction s as [|c s IH]; intros acc r; simpl.
  - destruct (k acc []) eqn:Hk0; [|done]. intros [= <-]. by eapply Hk.
  - destruct (k acc (c :: s)) eqn:Hk0.
    + intros [= <-]. by eapply Hk.
    + destruct (cls c); [|done]. intros H. apply Q_cons. by eapply IH.
Qed.

Lemma lazy_star_sound (cls : N → bool) (k : list N → list N → option A) :
  sound2 Q k → sound1 Q (Re.lazy_star cls k).
Proof. apply lazy_from_sound. Qed.

Lemma opt_sound (g : (list N → option A) → list N → option A)
    (k : list N → option A) :
  sound1 Q (g k) → sound1 Q k → sound1 Q (Re.opt g k).
Proof.
  intros Hg Hk s r. unfold Re.opt. destruct (g k s) eqn:Hgs.
  - intros [= <-]. by apply Hg.
  - apply Hk.
Qed.

Lemma alt_sound (g1 g2 : list N → option A) :
  sound1 Q g1 → sound1 Q g2 → sound1 Q (Re.alt g1 g2).
Proof.
  intros H1 H2 s r. unfold Re.alt. destruct (g1 s) eqn:Hgs.
  - intros [= <-]. by apply H1.
  - apply H2.
Qed.

Lemma sound2_const (k : list N → option A) : sound1 Q k → sound2 Q (λ _, k).
Proof. intros Hk acc. apply Hk. Qed.
End ReSound.

Section ReInversion.
Context {A : Type}.

Lemma text_inv (p : list N) (k : list N → option A) (s : list N) (r : A) :
  Re.text p k s = Some r →
  startswith p s = true ∧ k (drop (length p) s) = Some r.
Proof. unfold Re.text. by destruct (startswith p s). Qed.

Lemma one_inv (cls : N → bool) (k : N → list N → option A) (s : list N) (r : A) :
  Re.one cls k s = Some r →
  ∃ c s', s = c :: s' ∧ cls c = true ∧ k c s' = Some r.
Proof.
  destruct s as [|c s]; simpl; [done|]. destruct (cls c) eqn:Hc; [|done].
  intros H. by exists c, s.
Qed.

Lemma star_from_inv (cls : N → bool) (k : list N → list N → option A)
    (acc s : list N) (r : A) :
  Re.star_from cls k acc s = Some r →
  ∃ run s', s = run ++ s' ∧ all_of cls run ∧ k (acc ++ run) s' = Some r.
Proof.
  revert acc. induction s as [|c s IH]; intros acc; simpl.
  - intros H. exists [], []. split; [done|]. split; [constructor|].
    by rewrite app_nil_r.
  - assert (k acc (c :: s) = Some r →
            ∃ run s', c :: s = run ++ s' ∧ all_of cls run
                      ∧ k (acc ++ run) s' = Some r) as Hstop.
    { intros H. exists [], (c :: s). split; [done|]. split; [constructor|].
      by rewrite app_nil_r. }
    destruct (cls c) eqn:Hc; [|done].
    destruct (Re.star_from cls k (acc ++ [c]) s) as [r'|] eqn:Hs; [|done].
    intros [= <-]. destruct (IH _ Hs) as (run & s' & -> & Hrun & Hk).
    exists (c :: run), s'. split; [done|]. split; [by constructor|].
    by rewrite <- app_assoc in Hk.
Qed.

Lemma finditer_elem (m : list N → option (A * list N)) (skip : nat) (s : list N)
    (a : A) :
  a ∈ Re.finditer m skip s →
  ∃ i rest, i < length s ∧ m (drop i s) = Some (a, rest).
Proof.
  revert skip. induction s as [|c s IH]; intros skip; simpl.
  - by intros ?%elem_of_nil.
  - assert (∀ k, a ∈ Re.finditer m k s →
              ∃ i rest, i < S (length s) ∧ m (drop i (c :: s)) = Some (a, rest))
      as Hlater.
    { intros k (i & rest & Hi & Hm)%IH. exists (S i), rest. split; [lia|done]. }
    destruct skip as [|k]; [|apply Hlater].
    destruct (m (c :: s)) as [[a' rest]|] eqn:Hm; [|apply Hlater].
    intros [->|Hin]%elem_of_cons; [|by eapply Hlater].
    exists 0, rest. split; [lia|done].
Qed.

Lemma search_from_inv (m : bool → list N → option A) (bol : bool) (pos : nat)
    (s : list N) (p : nat) (a : A) :
  Re.search_from m bol pos s = Some (p, a) →
  ∃ i b, p = pos + i ∧ i ≤ length s ∧ m b (drop i s) = Some a
         ∧ ∀ j, j < i → ∃ b', m b' (drop j s) = None.
Proof.
  revert bol pos. induction s as [|c s IH]; intros bol pos; simpl.
  - destruct (m bol []) eqn:Hm; [|done]. intros [= <- <-].
    exists 0, bol. repeat split; [lia|lia|done|]. intros j Hj. lia.
  - destruct (m bol (c :: s)) eqn:Hm.
    + intros [= <- <-]. exists 0, bol. repeat split; [lia|lia|done|].
      intros j Hj. lia.
    + intros (i & b & -> & Hi & Hmi & Hbefore)%IH.
      exists (S i), b. repeat split; [lia|lia|done|].
      intros [|j] Hj; [by exists bol|]. apply Hbefore. lia.
Qed.
End ReInversion.

(** ** The registration pattern, in general *)

Lemma parse_tools_needs_call (content : list N) (skip : nat) :
  contains (lit "this.server.registerTool(") content = false →
  Re.finditer Extract.registration skip content = [].
Proof.
  revert skip. induction content as [|c content IH]; intros skip H; [done|].
  cbn [contains] in H. apply orb_false_iff in H as [Hhere Hlater].
  cbn [Re.finditer]. destruct skip as [|k]; [|by apply IH].
  unfold Extract.registration at 1, Re.text at 1. rewrite Hhere. by apply IH.
Qed.

(** X4: when the text of the call, [this.server.registerTool(], occurs
    nowhere in the aggregation source, no tool is found. *)
Theorem parse_tools_without_call (content : list N) :
  contains (lit "this.server.registerTool(") content = false →
  Extract.parse_tools content = [].
Proof.
  intros H. unfold Extract.parse_tools. by rewrite parse_tools_needs_call.
Qed.

Lemma parse_tools_without_call_witness :
  Extract.parse_tools (lit "server.registerTool('simctl-boot', { description: `Boot` });")
  = [].
Proof. apply parse_tools_without_call. by vm_compute. Defined.

Lemma none_of_negb (cls : N → bool) (s : list N) :
  all_of (λ c, negb (cls c)) s → none_of cls s.
Proof.
  intros H. eapply Forall_impl; [exact H|]. intros c Hc. simpl in Hc.
  by apply negb_true_iff.
Qed.

Lemma registration_close_inv (g1 g2 s : list N) (r : (list N * list N) * list N) :
  Extract.registration_close g1 g2 s = Some r → r.1 = (g1, g2).
Proof.
  unfold Extract.registration_close.
  intros (c & s' & _ & _ & [= <-])%one_inv. done.
Qed.

Lemma registration_groups (s : list N) (g1 g2 rest : list N) :
  Extract.registration s = Some ((g1, g2), rest) →
  g1 ≠ [] ∧ none_of Re.quote g1 ∧ none_of Re.tick_or_quote g2.
Proof.
  unfold Extract.registration. intros H.
  apply text_inv in H as [_ H].
  apply star_from_inv in H as (_ & s1 & _ & _ & H).
  apply one_inv in H as (_ & s2 & _ & _ & H).
  apply one_inv in H as (c0 & s3 & _ & Hc0 & H).
  apply star_from_inv in H as (name & s4 & _ & Hname & H).
  apply one_inv in H as (_ & s5 & _ & _ & H).
  apply text_inv in H as [_ H].
  apply star_from_inv in H as (_ & s6 & _ & _ & H).
  apply text_inv in H as [_ H].
  apply star_from_inv in H as (_ & s7 & _ & _ & H).
  apply text_inv in H as [_ H].
  apply star_from_inv in H as (_ & s8 & _ & _ & H).
  apply one_inv in H as (_ & s9 & _ & _ & H).
  apply star_from_inv in H as (g2a & s10 & _ & Hg2a & H).
  simpl ([] ++ g2a) in H. unfold Re.alt in H.
  destruct (Re.star _ _ s10) as [r|] eqn:Hs.
  - injection H as ->. unfold Re.star in Hs.
    apply star_from_inv in Hs as (g2b & s11 & _ & Hg2b & Hs).
    apply registration_close_inv in Hs. simpl in Hs. injection Hs as -> ->.
    split; [done|]. split; [apply none_of_negb; by constructor|].
    apply none_of_negb, Forall_app. by split.
  - apply registration_close_inv in H. simpl in H. injection H as -> ->.
    split; [done|]. split; [apply none_of_negb; by constructor|].
    by apply none_of_negb.
Qed.

(** X5: every pair [parse_tools] returns comes from a match of the pattern
    somewhere in the text; its identifier is not empty and has no single or
    double quote in it, and its description is the cleaned form of a text
    without backtick and double quote. *)
Theorem parse_tools_sound (content name description : list N) :
  (name, description) ∈ Extract.parse_tools content →
  name ≠ [] ∧ none_of Re.quote name
  ∧ ∃ i group2 rest,
      i < length content
      ∧ Extract.registration (drop i content) = Some ((name, group2), rest)
      ∧ none_of Re.tick_or_quote group2
      ∧ description = Extract.clean_description group2.
Proof.
  unfold Extract.parse_tools. intros ([g1 g2] & [= -> ->] & Hin)%list_elem_of_fmap.
  apply finditer_elem in Hin as (i & rest & Hi & Hm).
  destruct (registration_groups _ _ _ _ Hm) as (Hne & Hq & Ht).
  split; [done|]. split; [done|]. by exists i, g2, rest.
Qed.

Lemma parse_tools_sound_witness :
  lit "idb-ui-tap" ≠ [] ∧ none_of Re.quote (lit "idb-ui-tap")
  ∧ ∃ i group2 rest,
      i < 69
      ∧ Extract.registration
          (drop i (lit "x = this.server.registerTool('idb-ui-tap', { description: ` Tap ` });"))
        = Some ((lit "idb-ui-tap", group2), rest)
      ∧ none_of Re.tick_or_quote group2
      ∧ lit "Tap" = Extract.clean_description group2.
Proof.
  apply (parse_tools_sound
    (lit "x = this.server.registerTool('idb-ui-tap', { description: ` Tap ` });")
    (lit "idb-ui-tap") (lit "Tap")).
  by_decide.
Defined.

(** ** The declaration located by [find_function_export] *)

Lemma brace_then_cons (c : N) (s rest : list N) :
  brace_then s rest → brace_then (c :: s) rest.
Proof. intros [m ->]. by exists (c :: m). Qed.

Section Locator.
Variable unicode_alnum : N → bool.

Ltac sound_step :=
  first [ apply (text_sound _ brace_then_cons)
        | apply (plus_sound _ brace_then_cons)
        | apply (star_sound _ brace_then_cons)
        | apply (lazy_star_sound _ brace_then_cons)
        | apply sound2_const
        | apply opt_sound; cbv beta ].

Lemma function_export_shape (s rest : list N) :
  Inject.function_export unicode_alnum s = Some rest →
  ∃ m, s = lit "export" ++ m ++ lit "{" ++ rest.
Proof.
  assert (sound1 brace_then (Re.text (lit "{") (λ rest : list N, Some rest))) as Hend.
  { intros t r [Hs [= <-]]%text_inv. exists []. by apply startswith_true in Hs. }
  unfold Inject.function_export. intros [Hs H]%text_inv.
  assert (brace_then (drop (length (lit "export")) s) rest) as [m Hm].
  { revert H. generalize (drop (length (lit "export")) s). intros t. revert t rest.
    change (sound1 brace_then
      (Re.plus isspace (λ _,
        Re.opt (λ k, Re.text (lit "async") (Re.plus isspace (λ _, k)))
       (Re.text (lit "function")
       (Re.plus isspace (λ _,
        Re.plus (Re.word unicode_alnum) (λ _,
        Re.text (lit "(")
       (Re.lazy_star Re.not_nl (λ _,
        Re.text (lit ")")
       (Re.star isspace (λ _,
        Re.opt (λ k, Re.text (lit ":") (Re.star isspace (λ _,
                       Re.plus (Re.word unicode_alnum) (λ _, k))))
       (Re.star isspace (λ _,
        Re.text (lit "{") (λ rest, Some rest)))))))))))))).
    repeat first [ exact Hend | sound_step ]. }
  exists m. apply startswith_true in Hs. by rewrite Hs at 1; rewrite Hm.
Qed.

Lemma search_from_none {A : Type} (m : list N → option A) (bol : bool) (pos : nat)
    (s : list N) :
  Re.search_from (λ _, m) bol pos s = None → ∀ j, j ≤ length s → m (drop j s) = None.
Proof.
  revert bol pos. induction s as [|c s IH]; intros bol pos; simpl.
  - destruct (m []) eqn:Hm; [done|]. intros _ j Hj. by replace j with 0 by lia.
  - destruct (m (c :: s)) eqn:Hm; [done|]. intros H [|j] Hj; [done|].
    simpl. eapply IH; [done|lia].
Qed.

Lemma function_export_search (content : list N) (i : nat) (rest : list N) :
  Re.search (λ _, Inject.function_export unicode_alnum) content = Some (i, rest) →
  i ≤ length content
  ∧ (∃ m, drop i content = (lit "export" ++ m ++ lit "{") ++ rest)
  ∧ ∀ j, j < i → Inject.function_export unicode_alnum (drop j content) = None.
Proof.
  unfold Re.search.
  intros (i' & b & -> & Hi & Hm & Hbefore)%search_from_inv. simpl.
  destruct (function_export_shape _ _ Hm) as [m Hshape].
  split; [done|]. split.
  - exists m. by rewrite Hshape, <- !app_assoc.
  - intros j Hj. by destruct (Hbefore j Hj) as [_ H].
Qed.

Lemma take_matched (content : list N) (i : nat) (matched rest : list N) :
  drop i content = matched ++ rest →
  take (length content - i - length rest) (drop i content) = matched.
Proof.
  intros Hd.
  assert (length (drop i content) = length content - i) as Hlen by apply length_drop.
  rewrite Hd in Hlen. rewrite length_app in Hlen.
  replace (length content - i - length rest) with (length matched) by lia.
  by rewrite Hd, take_app_length.
Qed.

(** X6: what [find_function_export] returns for a file with a declaration:
    the text it returns starts with [export] and ends with an opening brace,
    it stands in the file at the offset returned, and the pattern matches at
    no earlier offset. *)
Theorem find_function_export_found (content tool_name : list N) (start_pos : nat)
    (text : list N) :
  Inject.find_function_export unicode_alnum content tool_name
    = (Some start_pos, Some text) →
  (∃ m, text = lit "export" ++ m ++ lit "{")
  ∧ start_pos ≤ length content
  ∧ (∃ rest, content = take start_pos content ++ text ++ rest)
  ∧ ∀ j, j < start_pos → Inject.function_export unicode_alnum (drop j content) = None.
Proof.
  unfold Inject.find_function_export.
  destruct (Re.search _ content) as [[i rest]|] eqn:Hs; [|done].
  intros [= <- <-].
  apply function_export_search in Hs as (Hi & [m Hd] & Hbefore).
  rewrite (take_matched _ _ _ _ Hd).
  split; [by exists m|]. split; [done|]. split; [|done].
  exists rest. rewrite <- Hd. by rewrite take_drop.
Qed.

(** X7: when [find_function_export] returns the pair of [None], the pattern
    matches at no offset of the file. *)
Theorem find_function_export_not_found (content tool_name : list N) :
  Inject.find_function_export unicode_alnum content tool_name = (None, None) →
  ∀ j, j ≤ length content →
    Inject.function_export unicode_alnum (drop j content) = None.
Proof.
  unfold Inject.find_function_export, Re.search.
  destruct (Re.search_from _ _ _ _) as [[p rest]|] eqn:Hs; [done|].
  intros _. by apply (search_from_none _ _ _ _ Hs).
Qed.

(** X8: spliced at the offset [find_function_export] returns, the comment
    block stands immediately before the located declaration, separated from
    it by one line break; the text before it and the text from the
    declaration on are those of the file. *)
Theorem splice_before_declaration (content tool_name jsdoc : list N) (start_pos : nat)
    (text : list N) :
  Inject.find_function_export unicode_alnum content tool_name
    = (Some start_pos, Some text) →
  ∃ rest,
    content = take start_pos content ++ text ++ rest
    ∧ Inject.splice content start_pos jsdoc
      = take start_pos content ++ jsdoc ++ [Ch.nl] ++ text ++ rest.
Proof.
  unfold Inject.find_function_export.
  destruct (Re.search _ content) as [[i rest]|] eqn:Hs; [|done].
  intros [= <- <-].
  apply function_export_search in Hs as (_ & [m Hd] & _).
  rewrite (take_matched _ _ _ _ Hd). exists rest.
  unfold Inject.splice. rewrite <- Hd. by rewrite take_drop.
Qed.
End Locator.

Lemma find_function_export_found_witness :
  ∃ m, lit "export async function run(args: any): Promise {"
       = lit "export" ++ m ++ lit "{".
Proof.
  refine (proj1 (find_function_export_found (λ _, false)
            (lit "let a = 1; export async function run(args: any): Promise { }")
            (lit "run") 11 (lit "export async function run(args: any): Promise {") _)).
  by vm_compute.
Defined.

Lemma find_function_export_not_found_witness :
  Inject.function_export (λ _, false)
    (drop 6 (lit "const run = async (args: any) => { };")) = None.
Proof.
  apply (find_function_export_not_found (λ _, false)
           (lit "const run = async (args: any) => { };") (lit "run")).
  - by vm_compute.
  - by_decide.
Defined.

Lemma splice_before_declaration_witness :
  ∃ rest,
    lit "let a = 1; export function run() { }"
    = take 11 (lit "let a = 1; export function run() { }")
      ++ lit "export function run() {" ++ rest
    ∧ Inject.splice (lit "let a = 1; export function run() { }") 11 (lit "/** Run */")
      = take 11 (lit "let a = 1; export function run() { }")
        ++ lit "/** Run */" ++ [Ch.nl] ++ lit "export function run() {" ++ rest.
Proof.
  apply (splice_before_declaration (λ _, false)
           (lit "let a = 1; export function run() { }") (lit "run") (lit "/** Run */")
           11 (lit "export function run() {")).
  by vm_compute.
Defined.

(** X9: taking the inserted block out of the spliced text gives the text back,
    wherever the offset lies; the spliced text is longer by the block and
    one line break. *)
Theorem splice_round_trip (content jsdoc : list N) (start_pos : nat) :
  let new_content := Inject.splice content start_pos jsdoc in
  let p := start_pos `min` length content in
  take p new_content ++ drop (p + length jsdoc + 1) new_content = content
  ∧ take (length jsdoc + 1) (drop p new_content) = jsdoc ++ [Ch.nl]
  ∧ length new_content = length content + length jsdoc + 1.
Proof.
  simpl. unfold Inject.splice.
  set (a := take start_pos content). set (b := drop start_pos content).
  assert (length a = start_pos `min` length content) as Ha by apply length_take.
  rewrite <- Ha.
  replace (a ++ jsdoc ++ [Ch.nl] ++ b) with (a ++ (jsdoc ++ [Ch.nl]) ++ b)
    by by rewrite <- !app_assoc.
  split; [|split].
  - rewrite take_app_length.
    replace (length a + length jsdoc + 1) with (length a + length (jsdoc ++ [Ch.nl]))
      by (rewrite length_app; simpl; lia).
    rewrite drop_app_add', drop_app_length by done. apply take_drop.
  - rewrite drop_app_length.
    replace (length jsdoc + 1) with (length (jsdoc ++ [Ch.nl]))
      by (rewrite length_app; simpl; lia).
    by rewrite take_app_length.
  - rewrite !length_app. simpl. subst a b.
    rewrite <- (take_drop start_pos content) at 3. rewrite length_app. lia.
Qed.

(** ** Where a sidecar goes *)

Lemma first_token_prefix (prefix rest : list N) :
  Ch.dash ∉ prefix → first_token (prefix ++ Ch.dash :: rest) = prefix.
Proof.
  induction prefix as [|c prefix IH]; simpl.
  - done.
  - intros [Hc Hp]%not_elem_of_cons.
    destruct (N.eqb_spec c Ch.dash) as [->|_]; [done|]. by rewrite IH.
Qed.

(** X12: the sidecar of a tool [prefix-rest] goes to [rest.md] in the
    directory of its category: [src/tools/prefix] for one of the five known
    prefixes, [src/tools/unknown] for any other, so that two tools with
    unknown prefixes and the same rest get the same path. *)
Theorem sidecar_path_of_tool (prefix rest description : list N) :
  Ch.dash ∉ prefix →
  let tool := (prefix ++ Ch.dash :: rest, description) in
  let category := if bool_decide (prefix ∈ known_categories) then prefix
                  else lit "unknown" in
  Extract.get_tool_category tool.1 = Ok category
  ∧ target (Extract.category_dir category) tool
    = lit "src/tools/" ++ category ++ lit "/" ++ rest ++ lit ".md".
Proof.
  intros Hp tool category. subst tool category. cbn [fst]. split.
  - unfold Extract.get_tool_category.
    rewrite split_dash_head, categories_loop_known, first_token_prefix by done.
    by case_bool_decide.
  - unfold target, Extract.md_path, Extract.category_dir, Extract.get_tool_filename.
    cbn [fst]. rewrite split1_at_sep by done. simpl. by rewrite <- ?app_assoc.
Qed.

Lemma sidecar_path_of_tool_witness :
  target (Extract.category_dir (lit "unknown")) (lit "adb-tap", lit "Tap")
  = lit "src/tools/unknown/tap.md"
  ∧ target (Extract.category_dir (lit "unknown")) (lit "xyz-tap", lit "Tap again")
  = lit "src/tools/unknown/tap.md".
Proof.
  split.
  - apply (sidecar_path_of_tool (lit "adb") (lit "tap") (lit "Tap")). by_decide.
  - apply (sidecar_path_of_tool (lit "xyz") (lit "tap") (lit "Tap again")). by_decide.
Defined.

(** ** The fields read from a sidecar *)

Lemma elem_of_drop_list {A : Type} (x : A) (j : nat) (l : list A) :
  x ∈ drop j l → x ∈ l.
Proof.
  intros H. rewrite <- (take_drop j l). apply elem_of_app. by right.
Qed.

Lemma elem_of_lstrip (c : N) (s : list N) : c ∈ lstrip s → c ∈ s.
Proof.
  induction s as [|d s IH]; simpl; [done|].
  destruct (isspace d); [|done]. intros H. right. by apply IH.
Qed.

Lemma elem_of_strip (c : N) (s : list N) : c ∈ strip s → c ∈ s.
Proof.
  unfold strip, rstrip. intros H. apply elem_of_lstrip.
  apply list_elem_of_In, in_rev, list_elem_of_In.
  apply elem_of_lstrip. by apply list_elem_of_In, in_rev, list_elem_of_In in H.
Qed.

Lemma split_no_sep (sep : N) (s : list N) : Forall (λ l, sep ∉ l) (split sep s).
Proof.
  induction s as [|c s IH]; simpl.
  - constructor; [apply not_elem_of_nil|done].
  - destruct (N.eqb_spec c sep) as [->|Hne].
    + constructor; [apply not_elem_of_nil|done].
    + destruct (split sep s) as [|w ws].
      * constructor; [|done]. by intros ->%list_elem_of_singleton.
      * apply Forall_cons in IH as [Hw Hws]. constructor; [|done].
        by intros [->|H]%elem_of_cons.
Qed.

Lemma startswith_no_head (c : N) (p s : list N) :
  c ∉ s → startswith (c :: p) s = false.
Proof.
  destruct s as [|d s]; [done|]. intros [Hd _]%not_elem_of_cons.
  by apply startswith_head.
Qed.

Lemma search_from_miss {A : Type} (m : bool → list N → option A) (bol : bool)
    (pos : nat) (s : list N) :
  (∀ b j, m b (drop j s) = None) → Re.search_from m bol pos s = None.
Proof.
  revert bol pos. induction s as [|c s IH]; intros bol pos H.
  - simpl. assert (m bol [] = None) as -> by apply (H bol 0). done.
  - simpl. assert (m bol (c :: s) = None) as -> by apply (H bol 0).
    apply IH. intros b j. apply (H b (S j)).
Qed.

(** X17: a sidecar without any hash character has no heading, hence no title,
    no first paragraph and no section: every field gets its default. *)
Theorem md_fields_defaults (content : list N) :
  Ch.hash ∉ content →
  Inject.md_fields content =
    <[lit "title" := lit "Tool"]>
      (<[lit "what_it_does" := lit "No description available"]>
        (<[lit "why_use" :=
             lit "- Provides enhanced functionality over raw CLI commands"]>
          (<[lit "parameters" := lit "- See implementation for parameters"]>
            (<[lit "returns" :=
                 lit "Structured result with status, metadata, and guidance"]>
              (<[lit "example" := lit "await toolFunction(args)"]> ∅))))).
Proof.
  intros Hno.
  assert (∀ j, Ch.hash ∉ drop j content) as Hdrop.
  { intros j H. by apply Hno, (elem_of_drop_list _ j). }
  assert (Re.search Inject.title_pattern content = None) as Htitle.
  { apply search_from_miss. intros [|] j; [|done].
    unfold Inject.title_pattern, Re.text. by rewrite startswith_no_head. }
  assert (Re.search Inject.para_pattern content = None) as Hpara.
  { apply search_from_miss. intros [|] j; [|done].
    unfold Inject.para_pattern, Re.text. by rewrite startswith_no_head. }
  assert (∀ rest, Re.search (Inject.section_pattern (Ch.hash :: rest)) content = None)
    as Hsection.
  { intros rest. apply search_from_miss. intros b j.
    unfold Inject.section_pattern, Re.text. by rewrite startswith_no_head. }
  unfold Inject.md_fields, Inject.extract_advantages, Inject.extract_params.
  rewrite Htitle, Hpara.
  change (lit "## Advantages") with (Ch.hash :: lit "# Advantages").
  change (lit "## Parameters") with (Ch.hash :: lit "# Parameters").
  by rewrite !Hsection.
Qed.

Lemma md_fields_defaults_witness :
  Inject.md_fields (lit "Boot a simulator device.

- Waits until the device is ready") !! lit "why_use"
  = Some (lit "- Provides enhanced functionality over raw CLI commands").
Proof.
  rewrite md_fields_defaults; [reflexivity|]. by_decide.
Defined.

Lemma fold_add_advantage_inv (lines acc : list (list N)) :
  Forall (λ l, Ch.nl ∉ l) lines →
  Forall (λ a, Inject.is_bullet a = true ∧ Ch.nl ∉ a) acc →
  Forall (λ a, Inject.is_bullet a = true ∧ Ch.nl ∉ a)
    (fold_left Inject.add_advantage lines acc).
Proof.
  intros Hlines. revert acc.
  induction Hlines as [|l lines Hl Hlines IH]; intros acc Hacc; [done|].
  simpl. apply IH. unfold Inject.add_advantage.
  destruct (Inject.is_bullet (strip l)) eqn:Hb; [|done].
  apply Forall_app. split; [done|]. constructor; [|done].
  split; [done|]. intros H. by apply Hl, elem_of_strip.
Qed.

(** X18: the advantages kept from a sidecar are at most four, and each is one
    line that starts with a bullet mark or a dash. *)
Theorem extract_advantages_bounds (content : list N) :
  length (Inject.extract_advantages content) ≤ 4
  ∧ Forall (λ a, Inject.is_bullet a = true ∧ Ch.nl ∉ a)
      (Inject.extract_advantages content).
Proof.
  unfold Inject.extract_advantages.
  destruct (Re.search _ content) as [[pos adv_text]|]; [|split; [simpl; lia|done]].
  split; [rewrite length_take; lia|].
  apply Forall_take, fold_add_advantage_inv; [apply split_no_sep|done].
Qed.

Lemma fold_add_param_kept (lines acc : list (list N)) :
  fold_left Inject.add_param lines acc =
    acc ++ map (λ l, lit "- " ++ strip l) (List.filter kept_param_line lines).
Proof.
  revert acc. induction lines as [|l lines IH]; intros acc; simpl.
  - by rewrite app_nil_r.
  - rewrite IH. unfold Inject.add_param, kept_param_line.
    destruct (negb (bool_decide (strip l = [])) && negb (startswith [Ch.hash] (strip l)));
      [|done].
    by rewrite <- app_assoc.
Qed.

(** X19: the parameter lines kept from a sidecar.  Of the first four lines of
    the text the parameters pattern captures, those are kept, in order,
    that are not empty once stripped and do not then start with a hash; each
    is kept as a dash and a space followed by the stripped line, so a line
    that is itself a list item carries two dashes.  There are at most four,
    none spans more than one line, and without a match there is none. *)
Theorem extract_params_bounds (content : list N) :
  let lines :=
    match Re.search (Inject.section_pattern (lit "## Parameters")) content with
    | Some (_, params_text) => take 4 (split Ch.nl params_text)
    | None => []
    end in
  Inject.extract_params content
    = map (λ l, lit "- " ++ strip l) (List.filter kept_param_line lines)
  ∧ length (Inject.extract_params content) ≤ 4
  ∧ Forall (λ p, ∃ l, l ∈ lines ∧ p = lit "- " ++ strip l ∧ strip l ≠ []
                      ∧ (Ch.nl ∉ strip l)
                      ∧ startswith [Ch.hash] (strip l) = false)
      (Inject.extract_params content).
Proof.
  intros lines.
  assert (Inject.extract_params content
          = map (λ l, lit "- " ++ strip l) (List.filter kept_param_line lines)) as Heq.
  { subst lines. unfold Inject.extract_params.
    destruct (Re.search _ content) as [[pos params_text]|]; [|done].
    by rewrite fold_add_param_kept. }
  assert (length lines ≤ 4) as Hlen.
  { subst lines. destruct (Re.search _ content) as [[pos params_text]|]; [|simpl; lia].
    rewrite length_take. lia. }
  assert (Forall (λ l, Ch.nl ∉ l) lines) as Hnl.
  { subst lines. destruct (Re.search _ content) as [[pos params_text]|]; [|done].
    apply Forall_take, split_no_sep. }
  split; [done|]. rewrite Heq. split.
  - rewrite length_map. etrans; [apply List.filter_length_le|done].
  - apply Forall_forall. intros p (l & -> & Hl)%list_elem_of_fmap.
    apply list_elem_of_In, List.filter_In in Hl as [Hin Hkept].
    apply list_elem_of_In in Hin. unfold kept_param_line in Hkept.
    apply andb_true_iff in Hkept as [Hne Hh].
    apply negb_true_iff, bool_decide_eq_false in Hne. apply negb_true_iff in Hh.
    exists l. split; [done|]. split; [done|]. split; [done|]. split; [|done].
    intros Hc. rewrite Forall_forall in Hnl. by apply (Hnl l Hin), elem_of_strip.
Qed.

Lemma title_pattern_line (b : bool) (s group1 : list N) :
  Inject.title_pattern b s = Some group1 → group1 ≠ [] ∧ Ch.nl ∉ group1.
Proof.
  unfold Inject.title_pattern. destruct b; [|done]. intros H.
  apply text_inv in H as [_ H].
  apply one_inv in H as (sp & s1 & _ & _ & H).
  apply star_from_inv in H as (sps & s2 & _ & _ & H).
  apply one_inv in H as (c0 & s3 & _ & Hc0 & H).
  apply star_from_inv in H as (run & s4 & _ & Hrun & H).
  assert (group1 = c0 :: run) as ->.
  { unfold Re.dollar_multiline in H. destruct s4 as [|c s4].
    - by injection H as <-.
    - destruct (c =? 10)%N; [|done]. by injection H as <-. }
  split; [done|]. intros [Heq|Hin]%elem_of_cons.
  - by rewrite <- Heq in Hc0.
  - unfold all_of in Hrun. rewrite Forall_forall in Hrun. by apply Hrun in Hin.
Qed.

(** X20: the title read from a sidecar is never empty and never spans more
    than one line, whatever the sidecar holds. *)
Theorem md_fields_title (content : list N) :
  ∃ title, Inject.md_fields content !! lit "title" = Some title
           ∧ title ≠ [] ∧ (Ch.nl ∉ title).
Proof.
  unfold Inject.md_fields. rewrite lookup_insert_eq.
  destruct (Re.search Inject.title_pattern content) as [[pos group1]|] eqn:Hs.
  - exists group1. split; [done|]. unfold Re.search in Hs.
    apply search_from_inv in Hs as (i & b & _ & _ & Hm & _).
    by apply title_pattern_line in Hm.
  - exists (lit "Tool"). split; [done|]. split; [done|]. by_decide.
Qed.

(** X21: [load_md_content] opens the sidecar for reading and changes
    nothing.  It returns the empty dictionary exactly when reading raises
    [FileNotFoundError]; any other exception of reading leaves the function;
    and when the sidecar is read the dictionary is the one of its fields,
    with all six keys, so that none of the lookups of [add_jsdoc_to_file]
    can fail. *)
Theorem load_md_content_outcome {T : Type} `{FileSystem T} (md_path : list N)
    (w : world T) :
  ∃ r,
    Inject.load_md_content md_path w =
      (r, World (files w) (trace w ++ [OpenRead md_path]))
    ∧ (r = Ok ∅ ↔ ∃ msg, fs_read (files w) md_path = Raise (FileNotFoundError msg))
    ∧ (∀ e, r = Raise e ↔
            fs_read (files w) md_path = Raise e ∧ ∀ msg, e ≠ FileNotFoundError msg)
    ∧ (∀ md_info, r = Ok md_info → md_info ≠ ∅ →
         (∃ content, fs_read (files w) md_path = Ok content
                     ∧ md_info = Inject.md_fields content)
         ∧ ∀ key, key ∈ md_keys → ∃ v, Inject.getitem md_info key = Ok v).
Proof.
  unfold Inject.load_md_content, read_file, bind, emit, load. cbn [files trace].
  destruct (fs_read (files w) md_path) as [content|e] eqn:Hmd.
  - exists (Ok (Inject.md_fields content)). split; [done|]. split; [|split].
    + split; [|by intros [msg Hmsg]]. intros Hr. exfalso.
      apply (md_fields_nonempty content). congruence.
    + intros e. split; [done|by intros [? _]].
    + intros md_info [= <-] _. split; [by exists content|].
      intros key Hkey. unfold md_keys in Hkey. unfold Inject.getitem.
      repeat (apply elem_of_cons in Hkey as [->|Hkey];
              [unfold Inject.md_fields;
               rewrite ?lookup_insert_eq;
               repeat (rewrite lookup_insert_ne by by_decide);
               rewrite ?lookup_insert_eq; by eexists|]).
      by apply elem_of_nil in Hkey.
  - destruct e as [m|m|m|m|m|m|m|m|m|m];
      try (eexists; split; [done|]; split; [|split];
           [split; [done|by intros [m' [=]]]
           |intros e'; split; [by intros [= <-]|by intros [[= <-] _]]
           |done]).
    exists (Ok ∅). split; [done|]. split; [|split].
    + split; [by eexists|done].
    + intros e'. split; [done|]. intros [[= <-] Hne]. by destruct (Hne m).
    + by intros md_info [= <-] Hne.
Qed.

(** ** The sidecar paired with a source file *)

Lemma last_dot_ts (s : list N) : Path.last_dot (s ++ lit ".ts") = Some (length s).
Proof. induction s as [|c s IH]; [done|]. simpl. by rewrite IH. Qed.

Lemma stem_ts (s : list N) : s ≠ [] → Path.stem (s ++ lit ".ts") = s.
Proof.
  intros Hne. unfold Path.stem, Path.suffix. rewrite last_dot_ts.
  rewrite bool_decide_true.
  - rewrite drop_app_length, length_app.
    replace (length s + length (lit ".ts") - length (lit ".ts")) with (length s) by lia.
    by rewrite take_app_length.
  - rewrite length_app. change (length (lit ".ts")) with 3.
    destruct s; [done|]. simpl. lia.
Qed.

(** X22: the sidecar [main] pairs with a source file [s.ts] is [s.md], with one
    exception: for [xcodebuild-test.ts] it is [test.md] when
    [xcodebuild-test.md] does not exist.  The branch for [screenshot-inline]
    changes nothing. *)
Theorem md_name_of_ts (has : list N → bool) (dir s : list N) :
  s ≠ [] →
  Inject.md_name has dir (s ++ lit ".ts") =
    if bool_decide (s = lit "xcodebuild-test")
       && negb (has (Path.child dir (lit "xcodebuild-test.md")))
    then lit "test.md"
    else s ++ lit ".md".
Proof.
  intros Hne. unfold Inject.md_name, Path.with_suffix. rewrite stem_ts by done.
  case_bool_decide as Htest.
  - subst s. change (lit "xcodebuild-test" ++ lit ".md") with (lit "xcodebuild-test.md").
    by destruct (has _).
  - destruct (has _); [done|]. simpl.
    case_bool_decide as Hshot; [by subst s|done].
Qed.

Lemma md_name_of_ts_witness :
  Inject.md_name (λ _, false) (lit "src/tools/xcodebuild") (lit "xcodebuild-test.ts")
  = lit "test.md"
  ∧ Inject.md_name (λ _, false) (lit "src/tools/simctl") (lit "screenshot-inline.ts")
  = lit "screenshot-inline.md".
Proof.
  split.
  - apply (md_name_of_ts (λ _, false) (lit "src/tools/xcodebuild") (lit "xcodebuild-test")).
    by_decide.
  - apply (md_name_of_ts (λ _, false) (lit "src/tools/simctl") (lit "screenshot-inline")).
    by_decide.
Defined.
